(** * The chat relay handlers of the support-chat application

    A shallow embedding of the two variants of the [POST] request handler:
    - the handler with structured MCP errors, stream warnings and a response
      language ([Module Relay], embedding the source file part_000);
    - the handler of [src/app/api/chat/route.ts] ([Module SrcRoute]).
    The functions whose text is the same in both files are embedded once,
    before the two modules. *)

From stdpp Require Import base option list strings gmap pretty.
From Stdlib Require Import Ascii.

(** ** The fragment of JavaScript the handlers rely on *)

Module JS.

(** Truthiness of a string: every string but the empty one. *)
Definition truthy (s : string) : bool :=
  match s with
  | EmptyString => false
  | String _ _ => true
  end.

(** Truthiness of an optional string ([undefined] is falsy). *)
Definition truthy_opt (o : option string) : bool :=
  match o with
  | Some s => truthy s
  | None => false
  end.

(** [a || b] where [a] may be [undefined] and [b] is a string. *)
Definition or_default (a : option string) (b : string) : string :=
  match a with
  | Some s => if truthy s then s else b
  | None => b
  end.

(** [hay.includes(needle)]. *)
Fixpoint includes (hay needle : string) : bool :=
  String.prefix needle hay ||
  match hay with
  | EmptyString => false
  | String _ rest => includes rest needle
  end.

Definition upper_ascii (c : ascii) : ascii :=
  let n := nat_of_ascii c in
  if (97 <=? n)%nat && (n <=? 122)%nat then ascii_of_nat (n - 32) else c.

(** [s.toUpperCase()] on the ASCII letters. *)
Fixpoint toUpperCase (s : string) : string :=
  match s with
  | EmptyString => EmptyString
  | String c rest => String (upper_ascii c) (toUpperCase rest)
  end.

(** [xs.join(sep)]. *)
Fixpoint join (sep : string) (xs : list string) : string :=
  match xs with
  | [] => EmptyString
  | [x] => x
  | x :: rest => x +:+ sep +:+ join sep rest
  end.

(** The value of a property read [obj[key]] on an object literal whose own
    properties are strings: an own property, a property inherited from
    [Object.prototype], or [undefined]. *)
Inductive PropertyValue :=
| VUndefined
| VString (s : string)
| VInherited (key : string).

(** The property names every object literal inherits from
    [Object.prototype] (the handlers declare [runtime = "nodejs"]). *)
Definition object_prototype_keys : list string :=
  [ "constructor"; "__defineGetter__"; "__defineSetter__"; "hasOwnProperty";
    "__lookupGetter__"; "__lookupSetter__"; "isPrototypeOf";
    "propertyIsEnumerable"; "toString"; "valueOf"; "__proto__";
    "toLocaleString" ].

(** [obj[key]]: own properties first, then the prototype. *)
Definition get_property (own : gmap string string) (key : string) : PropertyValue :=
  match own !! key with
  | Some s => VString s
  | None =>
      if bool_decide (key ∈ object_prototype_keys) then VInherited key
      else VUndefined
  end.

(** Truthiness of a property value: the inherited properties are functions
    (and [__proto__] an object), all truthy. *)
Definition truthy_value (v : PropertyValue) : bool :=
  match v with
  | VUndefined => false
  | VString s => truthy s
  | VInherited _ => true
  end.

(** [a || b] on property values. *)
Definition or_value (a b : PropertyValue) : PropertyValue :=
  if truthy_value a then a else b.

(** String conversion as a template literal performs it: inherited
    functions print their native source text, [__proto__] is the prototype
    object. *)
Definition ToString (v : PropertyValue) : string :=
  match v with
  | VUndefined => "undefined"
  | VString s => s
  | VInherited key =>
      if String.eqb key "__proto__" then "[object Object]"
      else if String.eqb key "constructor" then "function Object() { [native code] }"
      else "function " +:+ key +:+ "() { [native code] }"
  end.

(** An assignment [arr[i] = v] on a JavaScript array, whose slots may be
    holes: inside the array the slot is overwritten, beyond its end the
    array is extended with holes up to [i]. *)
Definition array_set {A} (arr : list (option A)) (i : nat) (v : A) : list (option A) :=
  if decide (i < length arr) then <[i := Some v]> arr
  else arr ++ replicate (i - length arr) None ++ [Some v].

(** [arr[i]]: [undefined] for a hole and beyond the end. *)
Definition array_get {A} (arr : list (option A)) (i : nat) : option A :=
  mjoin (arr !! i).

(** An in-place update [arr[i].field = ...] of the record in slot [i]. *)
Definition array_update {A} (arr : list (option A)) (i : nat) (f : A → A) : list (option A) :=
  alter (fmap f) i arr.

End JS.

(** ** Data model *)

(** A thrown [Error]: its name ([Error], [TypeError], [SyntaxError], ...),
    its message, and the [status] and [code] fields the OpenAI client
    attaches. *)
Record Exc := mkExc {
  name : string;
  message : string;
  status : option nat;
  code : option string;
}.

Definition error (msg : string) : Exc := mkExc "Error" msg None None.

(** [String(error)] and [`${error}`]: [Error.prototype.toString]. *)
Definition errorToString (e : Exc) : string :=
  if negb (JS.truthy (name e)) then message e
  else if negb (JS.truthy (message e)) then name e
  else name e +:+ ": " +:+ message e.

(** A JSON value (numbers kept as their literal). *)
#[warnings="-register-all"]
Inductive Json :=
| JNull
| JBool (b : bool)
| JNumber (literal : string)
| JString (s : string)
| JArray (items : list Json)
| JObject (fields : list (string * Json)).

(** [interface Message]. *)
Inductive Role := user | assistant | system.

Record Message := mkMessage {
  role : Role;
  content : string;
}.

(** [interface ChatRequest]; the handler of [src/app] ignores [language]. *)
Record ChatRequest := mkChatRequest {
  messages : list Message;
  model : string;
  tone : string;
  language : string;
}.

(** [interface McpToolResult]. *)
Record ContentBlock := mkBlock {
  block_type : option string;
  text : option string;
}.

Record McpToolResult := mkResult {
  result_content : option (list ContentBlock);
}.

(** A tool descriptor as [listTools] returns it. *)
Record McpTool := mkTool {
  tool_name : string;
  description : option string;
  inputSchema : option Json;
}.

(** The shape the completion API expects a tool in. *)
Record OpenAITool := mkOpenAITool {
  fn_name : string;
  fn_description : string;
  fn_parameters : Json;
}.

(** An accumulated tool call: [{ id, name, arguments }]. *)
Record ToolCall := mkToolCall {
  tc_id : string;
  tc_name : string;
  tc_arguments : string;
}.

(** A tool-call fragment of a streamed delta. *)
Record FunctionDelta := mkFunctionDelta {
  fd_name : option string;
  fd_arguments : option string;
}.

Record ToolCallDelta := mkToolCallDelta {
  index : option nat;
  delta_id : option string;
  function : option FunctionDelta;
}.

Record Delta := mkDelta {
  delta_content : option string;
  tool_calls : option (list ToolCallDelta);
}.

(** A streamed chunk, reduced to [chunk.choices[0]?.delta]. *)
Record Chunk := mkChunk {
  delta : option Delta;
}.

(** [OpenAI.Chat.ChatCompletionMessageParam], as the handlers build it. *)
Inductive MessageParam :=
| ChatMsg (r : Role) (c : string)
| AssistantToolCalls (c : option string) (calls : list (option ToolCall))
| ToolMsg (tool_call_id : string) (c : string).

(** The argument of [openai.chat.completions.create]. *)
Record CompletionParams := mkParams {
  p_model : string;
  p_messages : list MessageParam;
  p_tools : option (list OpenAITool);
}.

(** A stream event, before it is serialised into a frame. *)
Inductive StreamEvent :=
| EvStatus (c : string)
| EvWarning (c : string)
| EvContent (c : string)
| EvError (c : string) (errorType : option string)
| EvDone.

(** ** Functions shared by the two handlers *)

Definition convertMcpToolsToOpenAI (mcpTools : list McpTool) : list OpenAITool :=
  map (λ tool,
    {| fn_name := tool_name tool;
       fn_description := JS.or_default (description tool) EmptyString;
       fn_parameters :=
         match inputSchema tool with
         | Some schema => schema
         | None => JObject [("type", JString "object"); ("properties", JObject [])]
         end |}) mcpTools.

Definition professional : string :=
  "Respond in a professional, formal manner. Be courteous and efficient.".
Definition friendly : string :=
  "Be warm, friendly, and conversational. Use a casual but helpful tone.".
Definition concise : string :=
  "Keep responses brief and to the point. Avoid unnecessary elaboration.".

Definition tones : gmap string string :=
  {[ "professional" := professional;
     "friendly" := friendly;
     "concise" := concise ]}.

(** [tones[tone] || tones.professional]. *)
Definition getTonePrompt (tone : string) : JS.PropertyValue :=
  JS.or_value (JS.get_property tones tone) (JS.VString professional).

(** The merge of one tool-call fragment into the accumulator. *)
Definition mergeToolCall (toolCalls : list (option ToolCall)) (tc : ToolCallDelta)
    : list (option ToolCall) :=
  match index tc with
  | None => toolCalls
  | Some i =>
      let fn_name := function tc ≫= fd_name in
      let fn_args := function tc ≫= fd_arguments in
      let t0 :=
        match JS.array_get toolCalls i with
        | None =>
            JS.array_set toolCalls i
              {| tc_id := JS.or_default (delta_id tc) EmptyString;
                 tc_name := JS.or_default fn_name EmptyString;
                 tc_arguments := EmptyString |}
        | Some _ => toolCalls
        end in
      let t1 :=
        match delta_id tc with
        | Some v => if JS.truthy v
            then JS.array_update t0 i (λ r, mkToolCall v (tc_name r) (tc_arguments r))
            else t0
        | None => t0
        end in
      let t2 :=
        match fn_name with
        | Some v => if JS.truthy v
            then JS.array_update t1 i (λ r, mkToolCall (tc_id r) v (tc_arguments r))
            else t1
        | None => t1
        end in
      match fn_args with
      | Some v => if JS.truthy v
          then JS.array_update t2 i (λ r, mkToolCall (tc_id r) (tc_name r) (tc_arguments r +:+ v))
          else t2
      | None => t2
      end
  end.

(** The inner [for (const tc of delta.tool_calls)] loop. *)
Definition mergeToolCalls (toolCalls : list (option ToolCall)) (tcs : list ToolCallDelta)
    : list (option ToolCall) :=
  foldl mergeToolCall toolCalls tcs.

(** ** The outside world of one request *)

(** What [openai.chat.completions.create] resolves to: the chunks the
    stream yields and, when the stream breaks off, the error it throws
    after them. *)
Inductive CompletionStream :=
| Stream (chunks : list Chunk) (failure : option Exc).

(** Everything a request depends on that is not in the source files: the
    process environment, the request body, the tool provider, the
    completion API and the JSON built-ins.  The number given to [callTool]
    and [create] is the count of earlier calls of the same request, so a
    service may answer the same call differently over time. *)
Record World := mkWorld {
  OPENAI_API_KEY : option string;
  MCP_SERVER_URL : option string;
  request_json : Exc + ChatRequest;
  listTools : string → Exc + option (list McpTool);
  callTool : nat → string → string → Json → Exc + McpToolResult;
  create : nat → CompletionParams → Exc + CompletionStream;
  JSON_parse : string → Exc + Json;
  JSON_stringify : McpToolResult → string;
}.

(** ** Effects: the stream, the calls issued, exceptions *)

(** The observable state of one request: the events enqueued on the
    stream in order, whether the stream was closed, the completion
    requests issued and the tool invocations made, both in order. *)
Record St := mkSt {
  events : list StreamEvent;
  closed : bool;
  requests : list CompletionParams;
  invocations : list (string * Json);
}.

Definition initial : St := mkSt [] false [] [].

Inductive Res (A : Type) :=
| Ok (a : A)
| Throw (e : Exc).
Arguments Ok {A} a.
Arguments Throw {A} e.

Definition M (A : Type) : Type := St → Res A * St.

#[global] Instance M_ret : MRet M := λ A a s, (Ok a, s).
#[global] Instance M_bind : MBind M := λ A B f m s,
  match m s with
  | (Ok a, s') => f a s'
  | (Throw e, s') => (Throw e, s')
  end.

Definition throw {A} (e : Exc) : M A := λ s, (Throw e, s).

(** [try { body } catch (e) { handler }]: what the body did to the state
    before it threw stays done. *)
Definition try_catch {A} (body : M A) (handler : Exc → M A) : M A := λ s,
  match body s with
  | (Ok a, s') => (Ok a, s')
  | (Throw e, s') => handler e s'
  end.

(** A value or a thrown exception, lifted into the monad. *)
Definition liftE {A} (r : Exc + A) : M A :=
  match r with
  | inl e => throw e
  | inr a => mret a
  end.

(** [controller.enqueue] of one frame. *)
Definition send (ev : StreamEvent) : M unit := λ s,
  (Ok tt, mkSt (events s ++ [ev]) (closed s) (requests s) (invocations s)).

(** [controller.close()]. *)
Definition close : M unit := λ s,
  (Ok tt, mkSt (events s) true (requests s) (invocations s)).

(** [await openai.chat.completions.create(params)]. *)
Definition completions_create (w : World) (params : CompletionParams) : M CompletionStream := λ s,
  let s' := mkSt (events s) (closed s) (requests s ++ [params]) (invocations s) in
  match create w (length (requests s)) params with
  | inl e => (Throw e, s')
  | inr stream => (Ok stream, s')
  end.

(** A loop over a list that threads an accumulator. *)
Fixpoint foldM {A B} (f : B → A → M B) (acc : B) (xs : list A) : M B :=
  match xs with
  | [] => mret acc
  | x :: rest => acc' ← f acc x; foldM f acc' rest
  end.

(** [for await (const chunk of stream) { ... }]. *)
Definition for_await {B} (stream : CompletionStream) (f : B → Chunk → M B) (acc : B) : M B :=
  match stream with
  | Stream chunks failure =>
      acc' ← foldM f acc chunks;
      match failure with
      | Some e => throw e
      | None => mret acc'
      end
  end.

(** The [TypeError] of a property read on [undefined]. *)
Definition undefined_read (prop : string) : Exc :=
  mkExc "TypeError" ("Cannot read properties of undefined (reading '" +:+ prop +:+ "')") None None.

Definition nl : string := String (ascii_of_nat 10) EmptyString.

(** [!value] for an environment variable. *)
Definition unset (v : option string) : bool := negb (JS.truthy_opt v).

(** [model || "gpt-4o-mini"]. *)
Definition modelOrDefault (model : string) : string :=
  if JS.truthy model then model else "gpt-4o-mini".

(** [[{ role: "system", content: systemPrompt }, ...messages.map(...)]]. *)
Definition allMessages (systemPrompt : string) (msgs : list Message) : list MessageParam :=
  ChatMsg system systemPrompt :: map (λ m, ChatMsg (role m) (content m)) msgs.

(** [openaiTools.length > 0 ? openaiTools : undefined]. *)
Definition toolsField (openaiTools : list OpenAITool) : option (list OpenAITool) :=
  if (0 <? length openaiTools)%nat then Some openaiTools else None.

(** [content.map((c) => c.text)], as [join] reads it: a missing text
    joins as the empty string. *)
Definition textFields (blocks : list ContentBlock) : list string :=
  (λ c, default EmptyString (text c)) <$> blocks.

(** [result.content?.map((c) => c.text).join("\n") || JSON.stringify(result)]. *)
Definition joinedText (result : McpToolResult) : option string :=
  (λ blocks, JS.join nl (textFields blocks)) <$> result_content result.

Definition resultText (w : World) (result : McpToolResult) : string :=
  match joinedText result with
  | Some s => if JS.truthy s then s else JSON_stringify w result
  | None => JSON_stringify w result
  end.

(** The body of the first [for await]: stream the content, merge the
    tool-call fragments. *)
Definition firstChunk (acc : string * list (option ToolCall)) (chunk : Chunk)
    : M (string * list (option ToolCall)) :=
  let '(fullContent, toolCalls) := acc in
  fullContent' ←
    match delta chunk ≫= delta_content with
    | Some c =>
        if JS.truthy c then send (EvContent c);; mret (fullContent +:+ c)
        else mret fullContent
    | None => mret fullContent
    end;
  mret (fullContent',
        match delta chunk ≫= tool_calls with
        | Some tcs => mergeToolCalls toolCalls tcs
        | None => toolCalls
        end).

(** The body of the second [for await]. *)
Definition followUpChunk (_ : unit) (chunk : Chunk) : M unit :=
  match delta chunk ≫= delta_content with
  | Some c => if JS.truthy c then send (EvContent c) else mret tt
  | None => mret tt
  end.

(** The messages of the follow-up request before the tool results:
    [[...allMessages, { role: "assistant", content: fullContent || null,
    tool_calls: toolCalls.map(...) }]]. *)
Definition withAssistant (all : list MessageParam) (fullContent : string)
    (toolCalls : list (option ToolCall)) : list MessageParam :=
  all ++ [AssistantToolCalls (if JS.truthy fullContent then Some fullContent else None) toolCalls].

(** What a handler returns: a JSON error response, or the event stream
    with everything [start] did to it. *)
Inductive Response :=
| JsonResponse (status : nat) (error : string)
| EventStream (stream : St).

(** ** The handler with MCP error reporting (part_000) *)

Module Relay.

(** [interface McpError]. *)
Record McpError := mkMcpError {
  source : string;
  operation : string;
  err_message : string;
  details : option string;
}.

Definition getMcpTools (w : World) (mcpUrl : string) : list McpTool * option McpError :=
  match listTools w mcpUrl with
  | inr tools => (default [] tools, None)
  | inl err =>
      ([], Some {| source := "mcp";
                   operation := "listTools";
                   err_message := "Failed to connect to MCP server";
                   details := Some (message err) |})
  end.

Definition callMcpTool (w : World) (mcpUrl toolName : string) (args : Json) : M McpToolResult := λ s,
  let s' := mkSt (events s) (closed s) (requests s) (invocations s ++ [(toolName, args)]) in
  match callTool w (length (invocations s)) mcpUrl toolName args with
  | inr result => (Ok result, s')
  | inl err =>
      (Ok {| result_content :=
               Some [ {| block_type := Some "text";
                         text := Some ("MCP tool error (" +:+ toolName +:+ "): " +:+ message err) |} ] |},
       s')
  end.

Definition languages : gmap string string :=
  {[ "en" := "English"; "es" := "Spanish"; "fr" := "French"; "de" := "German";
     "pt" := "Portuguese"; "zh" := "Chinese"; "ja" := "Japanese";
     "ko" := "Korean"; "ar" := "Arabic" ]}.

(** [languages[code] || "English"]. *)
Definition getLanguageName (code : string) : JS.PropertyValue :=
  JS.or_value (JS.get_property languages code) (JS.VString "English").

Definition formatError (source message : string) (details : option string) : string :=
  let formatted := "[" +:+ JS.toUpperCase source +:+ "] " +:+ message in
  match details with
  | Some d => if JS.truthy d then formatted +:+ " - " +:+ d else formatted
  | None => formatted
  end.

Definition systemPrompt (tone language : string) : string :=
  let languageName := JS.ToString (getLanguageName language) in
  "You are a helpful customer support agent for TechGear, a company that sells computer products including monitors, printers, keyboards, mice, and other peripherals."
  +:+ nl +:+ nl +:+ JS.ToString (getTonePrompt tone)
  +:+ nl +:+ nl +:+ "IMPORTANT: Always respond in " +:+ languageName
  +:+ ". The customer prefers " +:+ languageName +:+ "."
  +:+ nl +:+ nl +:+ "Your job is to help customers with:"
  +:+ nl +:+ "- Product information and recommendations"
  +:+ nl +:+ "- Order status and tracking"
  +:+ nl +:+ "- Returns and refunds"
  +:+ nl +:+ "- Technical support"
  +:+ nl +:+ "- General inquiries"
  +:+ nl +:+ nl +:+ "Use the available tools to look up information when needed. Always be helpful and provide accurate information.".

(** The first completion request of a turn. *)
Definition firstParams (req : ChatRequest) (mcpTools : list McpTool) : CompletionParams :=
  {| p_model := modelOrDefault (model req);
     p_messages := allMessages (systemPrompt (tone req) (language req)) (messages req);
     p_tools := toolsField (convertMcpToolsToOpenAI mcpTools) |}.

(** The message of the [error] event after a failed first completion. *)
Definition classify (err : Exc) : string :=
  let msg := message err in
  if bool_decide (status err = Some 401) || JS.includes msg "401" || JS.includes msg "Unauthorized"
  then "OpenAI: Invalid API key. Please check OPENAI_API_KEY."
  else if bool_decide (status err = Some 429) || JS.includes msg "429"
  then "OpenAI: Rate limit exceeded. Please try again later."
  else if bool_decide (status err = Some 500) || JS.includes msg "500"
  then "OpenAI: Server error. Please try again."
  else if bool_decide (code err = Some "ENOTFOUND") || JS.includes msg "ENOTFOUND"
  then "OpenAI: Network error - cannot reach api.openai.com"
  else "OpenAI: " +:+ (if JS.truthy msg then msg else "Unknown error").

(** One turn of [for (const tc of toolCalls)]; a hole of the array is
    iterated as [undefined]. *)
Definition toolStep (w : World) (mcpUrl : string) (toolMessages : list MessageParam)
    (slot : option ToolCall) : M (list MessageParam) :=
  try_catch
    (match slot with
     | None => throw (undefined_read "arguments")
     | Some tc =>
         args ← liftE (JSON_parse w (if JS.truthy (tc_arguments tc) then tc_arguments tc else "{}"));
         result ← callMcpTool w mcpUrl (tc_name tc) args;
         mret (toolMessages ++ [ToolMsg (tc_id tc) (resultText w result)])
     end)
    (λ err,
       match slot with
       | None => throw (undefined_read "id")
       | Some tc =>
           mret (toolMessages ++
                 [ToolMsg (tc_id tc)
                    (formatError "mcp" ("Tool " +:+ tc_name tc +:+ " failed") (Some (message err)))])
       end).

(** The name a slot contributes to [toolCalls.map((tc) => tc.name).join(", ")]. *)
Definition slotName (slot : option ToolCall) : string :=
  match slot with
  | Some tc => tc_name tc
  | None => EmptyString
  end.

(** The [if (toolCalls.length > 0)] block. *)
Definition toolRound (w : World) (mcpUrl : string) (req : ChatRequest)
    (all : list MessageParam) (fullContent : string) (toolCalls : list (option ToolCall)) : M unit :=
  send (EvStatus ("Using tools: " +:+ JS.join ", " (map slotName toolCalls)));;
  toolMessages ← foldM (toolStep w mcpUrl) (withAssistant all fullContent toolCalls) toolCalls;
  try_catch
    (followUp ← completions_create w
        {| p_model := modelOrDefault (model req); p_messages := toolMessages; p_tools := None |};
     for_await followUp followUpChunk tt)
    (λ err, send (EvError (formatError "openai" "Follow-up request failed" (Some (message err))) None)).

(** The announcement of what tool discovery gave. *)
Definition announce (mcpTools : list McpTool) (mcpError : option McpError) : M unit :=
  match mcpError with
  | Some e =>
      send (EvWarning ("MCP: " +:+ err_message e +:+ " (" +:+ default "undefined" (details e)
                       +:+ "). Proceeding without tools."))
  | None =>
      if (length mcpTools =? 0)%nat then send (EvWarning "MCP: No tools available from server.")
      else send (EvStatus ("MCP: Connected (" +:+ pretty (length mcpTools) +:+ " tools available)"))
  end.

(** The body of the outer [try] of [start]. *)
Definition orchestrate (w : World) (mcpUrl : string) (req : ChatRequest) : M unit :=
  send (EvStatus "Connecting to MCP server...");;
  let '(mcpTools, mcpError) := getMcpTools w mcpUrl in
  announce mcpTools mcpError;;
  let params := firstParams req mcpTools in
  send (EvStatus "Connecting to OpenAI...");;
  response ← try_catch
    (stream ← completions_create w params; mret (Some stream))
    (λ err, send (EvError (classify err) None);; close;; mret None);
  match response with
  | None => mret tt
  | Some response =>
      '(fullContent, toolCalls) ← for_await response firstChunk (EmptyString, []);
      (if (0 <? length toolCalls)%nat
       then toolRound w mcpUrl req (p_messages params) fullContent toolCalls
       else mret tt);;
      send EvDone;;
      close
  end.

(** The outer [catch] of [start]. *)
Definition outerCatch (err : Exc) : M unit :=
  let errorMsg := if JS.truthy (message err) then message err else "Unknown error" in
  (if JS.includes errorMsg "fetch" || JS.includes errorMsg "network" || JS.includes errorMsg "ENOTFOUND"
   then send (EvError ("Network error: Unable to reach external services. " +:+ errorMsg) (Some "network"))
   else if JS.includes errorMsg "JSON"
   then send (EvError ("Data parsing error: " +:+ errorMsg) (Some "parse"))
   else send (EvError errorMsg (Some "unknown")));;
  close.

Definition start (w : World) (mcpUrl : string) (req : ChatRequest) : M unit :=
  try_catch (orchestrate w mcpUrl req) outerCatch.

Definition POST (w : World) : Response :=
  if unset (OPENAI_API_KEY w)
  then JsonResponse 500 "OPENAI_API_KEY environment variable is not set"
  else
    match MCP_SERVER_URL w with
    | None => JsonResponse 500 "MCP_SERVER_URL environment variable is not set"
    | Some mcpUrl =>
        if negb (JS.truthy mcpUrl)
        then JsonResponse 500 "MCP_SERVER_URL environment variable is not set"
        else
          match request_json w with
          | inl _ => JsonResponse 400 "Invalid JSON in request body"
          | inr requestBody => EventStream (start w mcpUrl requestBody initial).2
          end
    end.

End Relay.

(** ** The handler of src/app/api/chat/route.ts *)

Module SrcRoute.

Definition getMcpTools (w : World) (mcpUrl : string) : list McpTool :=
  match listTools w mcpUrl with
  | inr tools => default [] tools
  | inl _ => []
  end.

Definition callMcpTool (w : World) (mcpUrl toolName : string) (args : Json) : M McpToolResult := λ s,
  let s' := mkSt (events s) (closed s) (requests s) (invocations s ++ [(toolName, args)]) in
  match callTool w (length (invocations s)) mcpUrl toolName args with
  | inr result => (Ok result, s')
  | inl err =>
      (Ok {| result_content :=
               Some [ {| block_type := Some "text";
                         text := Some ("Error calling tool: " +:+ errorToString err) |} ] |},
       s')
  end.

Definition systemPrompt (tone : string) : string :=
  "You are a helpful customer support agent for TechGear, a company that sells computer products including monitors, printers, keyboards, mice, and other peripherals."
  +:+ nl +:+ nl +:+ JS.ToString (getTonePrompt tone)
  +:+ nl +:+ nl +:+ "Your job is to help customers with:"
  +:+ nl +:+ "- Product information and recommendations"
  +:+ nl +:+ "- Order status and tracking"
  +:+ nl +:+ "- Returns and refunds"
  +:+ nl +:+ "- Technical support"
  +:+ nl +:+ "- General inquiries"
  +:+ nl +:+ nl +:+ "Use the available tools to look up information when needed. Always be helpful and provide accurate information.".

Definition firstParams (req : ChatRequest) (mcpTools : list McpTool) : CompletionParams :=
  {| p_model := modelOrDefault (model req);
     p_messages := allMessages (systemPrompt (tone req)) (messages req);
     p_tools := toolsField (convertMcpToolsToOpenAI mcpTools) |}.

(** One turn of [for (const tc of toolCalls)]. *)
Definition toolStep (w : World) (mcpUrl : string) (toolMessages : list MessageParam)
    (slot : option ToolCall) : M (list MessageParam) :=
  try_catch
    (match slot with
     | None => throw (undefined_read "arguments")
     | Some tc =>
         args ← liftE (JSON_parse w (if JS.truthy (tc_arguments tc) then tc_arguments tc else "{}"));
         result ← callMcpTool w mcpUrl (tc_name tc) args;
         mret (toolMessages ++ [ToolMsg (tc_id tc) (resultText w result)])
     end)
    (λ e,
       match slot with
       | None => throw (undefined_read "id")
       | Some tc => mret (toolMessages ++ [ToolMsg (tc_id tc) ("Error: " +:+ errorToString e)])
       end).

(** The [if (toolCalls.length > 0)] block; the follow-up request is not
    guarded. *)
Definition toolRound (w : World) (mcpUrl : string) (req : ChatRequest)
    (all : list MessageParam) (fullContent : string) (toolCalls : list (option ToolCall)) : M unit :=
  send (EvStatus "Using tools...");;
  toolMessages ← foldM (toolStep w mcpUrl) (withAssistant all fullContent toolCalls) toolCalls;
  followUp ← completions_create w
      {| p_model := modelOrDefault (model req); p_messages := toolMessages; p_tools := None |};
  for_await followUp followUpChunk tt.

(** The body of the [try] of [start]. *)
Definition orchestrate (w : World) (mcpUrl : string) (req : ChatRequest)
    (mcpTools : list McpTool) : M unit :=
  let params := firstParams req mcpTools in
  response ← completions_create w params;
  '(fullContent, toolCalls) ← for_await response firstChunk (EmptyString, []);
  (if (0 <? length toolCalls)%nat
   then toolRound w mcpUrl req (p_messages params) fullContent toolCalls
   else mret tt);;
  send EvDone;;
  close.

Definition start (w : World) (mcpUrl : string) (req : ChatRequest) (mcpTools : list McpTool) : M unit :=
  try_catch (orchestrate w mcpUrl req mcpTools)
    (λ err, send (EvError (errorToString err) None);; close).

(** The handler either returns a response or rejects: [await
    request.json()] is not guarded. *)
Definition POST (w : World) : Exc + Response :=
  if unset (OPENAI_API_KEY w)
  then inr (JsonResponse 500 "API key not configured")
  else
    match MCP_SERVER_URL w with
    | None => inr (JsonResponse 500 "MCP server URL not configured")
    | Some mcpUrl =>
        if negb (JS.truthy mcpUrl)
        then inr (JsonResponse 500 "MCP server URL not configured")
        else
          match request_json w with
          | inl e => inl e
          | inr requestBody =>
              let mcpTools := getMcpTools w mcpUrl in
              inr (EventStream (start w mcpUrl requestBody mcpTools initial).2)
          end
    end.

End SrcRoute.

(** ** Closed forms of the loops *)

(** The [content] events one chunk makes the handler emit. *)
Definition contentOf (chunk : Chunk) : list StreamEvent :=
  match delta chunk ≫= delta_content with
  | Some c => if JS.truthy c then [EvContent c] else []
  | None => []
  end.

Definition contentEvents (chunks : list Chunk) : list StreamEvent :=
  chunks ≫= contentOf.

(** The tool-call fragments a chunk carries. *)
Definition fragmentsOf (chunk : Chunk) : list ToolCallDelta :=
  default [] (delta chunk ≫= tool_calls).

(** [fullContent] after a run of chunks. *)
Definition fullContentOf (fullContent : string) (chunks : list Chunk) : string :=
  foldl (λ acc chunk,
    match delta chunk ≫= delta_content with
    | Some c => if JS.truthy c then acc +:+ c else acc
    | None => acc
    end) fullContent chunks.

(** [toolCalls] after a whole stream. *)
Definition accumulate (chunks : list Chunk) : list (option ToolCall) :=
  mergeToolCalls [] (chunks ≫= fragmentsOf).

Definition is_content (ev : StreamEvent) : bool :=
  match ev with
  | EvContent _ => true
  | _ => false
  end.

(** The call identifiers of the tool-result messages of a message list. *)
Definition toolResultIds (msgs : list MessageParam) : list string :=
  omap (λ m, match m with ToolMsg i _ => Some i | _ => None end) msgs.

(** The record a slot holds after one fragment was merged into it. *)
Definition mergeInto (prev : option ToolCall) (tc : ToolCallDelta) : ToolCall :=
  let fn_name := function tc ≫= fd_name in
  let fn_args := function tc ≫= fd_arguments in
  match prev with
  | None =>
      {| tc_id := JS.or_default (delta_id tc) EmptyString;
         tc_name := JS.or_default fn_name EmptyString;
         tc_arguments := JS.or_default fn_args EmptyString |}
  | Some r =>
      {| tc_id := JS.or_default (delta_id tc) (tc_id r);
         tc_name := JS.or_default fn_name (tc_name r);
         tc_arguments := tc_arguments r +:+ JS.or_default fn_args EmptyString |}
  end.

(** The record a run of fragments of one index adds up to: the last id and
    the last name supplied (the empty string when none was), and the
    argument texts in arrival order. *)
Definition mergedRecord (ds : list ToolCallDelta) : ToolCall :=
  {| tc_id := foldl (λ acc d, JS.or_default (delta_id d) acc) EmptyString ds;
     tc_name := foldl (λ acc d, JS.or_default (function d ≫= fd_name) acc) EmptyString ds;
     tc_arguments :=
       foldl (λ acc d, acc +:+ JS.or_default (function d ≫= fd_arguments) EmptyString) EmptyString ds |}.

(** The fragments of a stream that carry index [i], in arrival order. *)
Definition fragmentsAt (i : nat) (ds : list ToolCallDelta) : list ToolCallDelta :=
  filter (λ d, index d = Some i) ds.

(** Two fragments of index 0, each with a piece of the argument text. *)
Definition fragment_open : ToolCallDelta :=
  mkToolCallDelta (Some 0) (Some "call_1") (Some (mkFunctionDelta (Some "lookup") (Some "[1,"))).
Definition fragment_close : ToolCallDelta :=
  mkToolCallDelta (Some 0) None (Some (mkFunctionDelta None (Some "2]"))).

(** ** Vocabulary of the statements *)

(** Both configuration values are present: the handlers get past their
    configuration guards and use [mcpUrl] as the tool-provider endpoint. *)
Definition configured (w : World) (mcpUrl : string) : Prop :=
  JS.truthy_opt (OPENAI_API_KEY w) = true ∧
  MCP_SERVER_URL w = Some mcpUrl ∧
  JS.truthy mcpUrl = true.

(** The state with further events enqueued. *)
Definition emit (evs : list StreamEvent) (s : St) : St :=
  mkSt (events s ++ evs) (closed s) (requests s) (invocations s).

(** The state with one more completion request issued. *)
Definition issue (p : CompletionParams) (s : St) : St :=
  mkSt (events s) (closed s) (requests s ++ [p]) (invocations s).

(** The state with the stream closed. *)
Definition shut (s : St) : St :=
  mkSt (events s) true (requests s) (invocations s).

(** The event [Relay.announce] sends. *)
Definition announcement (mcpTools : list McpTool) (mcpError : option Relay.McpError) : StreamEvent :=
  match mcpError with
  | Some e =>
      EvWarning ("MCP: " +:+ Relay.err_message e +:+ " (" +:+ default "undefined" (Relay.details e)
                 +:+ "). Proceeding without tools.")
  | None =>
      if (length mcpTools =? 0)%nat then EvWarning "MCP: No tools available from server."
      else EvStatus ("MCP: Connected (" +:+ pretty (length mcpTools) +:+ " tools available)")
  end.

(** The events of [Relay.start] before the first completion request. *)
Definition preamble (w : World) (mcpUrl : string) : list StreamEvent :=
  let '(mcpTools, mcpError) := Relay.getMcpTools w mcpUrl in
  [ EvStatus "Connecting to MCP server...";
    announcement mcpTools mcpError;
    EvStatus "Connecting to OpenAI..." ].

(** The event the outer [catch] of [Relay.start] sends. *)
Definition outerEvent (err : Exc) : StreamEvent :=
  let errorMsg := if JS.truthy (message err) then message err else "Unknown error" in
  if JS.includes errorMsg "fetch" || JS.includes errorMsg "network" || JS.includes errorMsg "ENOTFOUND"
  then EvError ("Network error: Unable to reach external services. " +:+ errorMsg) (Some "network")
  else if JS.includes errorMsg "JSON"
  then EvError ("Data parsing error: " +:+ errorMsg) (Some "parse")
  else EvError errorMsg (Some "unknown").

(** The [error] event of a failed follow-up request in [Relay]. *)
Definition followUpError (err : Exc) : StreamEvent :=
  EvError (Relay.formatError "openai" "Follow-up request failed" (Some (message err))) None.

(** The follow-up request. *)
Definition followUpParams (req : ChatRequest) (toolMessages : list MessageParam) : CompletionParams :=
  {| p_model := modelOrDefault (model req); p_messages := toolMessages; p_tools := None |}.

(** A step of a tool loop answers every filled slot with one tool-result
    message tagged with the slot's call identifier, touching neither the
    stream nor the list of completion requests, and throws on a hole. *)
Definition answers (step : list MessageParam → option ToolCall → M (list MessageParam)) : Prop :=
  (∀ tm tc s, ∃ c inv,
      step tm (Some tc) s =
      (Ok (tm ++ [ToolMsg (tc_id tc) c]), mkSt (events s) (closed s) (requests s) inv)) ∧
  (∀ tm s, ∃ e, step tm None s = (Throw e, s)).

(** The argument text handed to [JSON.parse]: [tc.arguments || "{}"]. *)
Definition argumentText (tc : ToolCall) : string :=
  if JS.truthy (tc_arguments tc) then tc_arguments tc else "{}".

Definition is_system (m : MessageParam) : bool :=
  match m with
  | ChatMsg system _ => true
  | _ => false
  end.

(** The number of system messages of an outbound message list, and of a
    caller-supplied history. *)
Definition systemCount (out : list MessageParam) : nat :=
  length (List.filter is_system out).

Definition callerSystemCount (msgs : list Message) : nat :=
  length (List.filter (λ m, match role m with system => true | _ => false end) msgs).

(** The text of the warning sent when tool discovery failed. *)
Definition discoveryWarning (e : Exc) : string :=
  "MCP: Failed to connect to MCP server (" +:+ message e +:+ "). Proceeding without tools.".

(** The text of the synthetic result of a failed tool call in [Relay]. *)
Definition toolErrorText (toolName : string) (e : Exc) : string :=
  "MCP tool error (" +:+ toolName +:+ "): " +:+ message e.

(** The follow-up request [p2] fails with [e]: at once, or while its
    stream is read. *)
Definition followUpFails (w : World) (p2 : CompletionParams) (e : Exc) : Prop :=
  create w 1 p2 = inl e ∨ ∃ cs, create w 1 p2 = inr (Stream cs (Some e)).

(** ** Example worlds *)

Definition quote : string := String (ascii_of_nat 34) EmptyString.
Definition backslash : string := String (ascii_of_nat 92) EmptyString.

Definition hex_digit (n : nat) : string :=
  String (ascii_of_nat (if (n <? 10)%nat then 48 + n else 87 + n)) EmptyString.

(** [JSON.stringify] on the characters of a string. *)
Definition escape_char (c : ascii) : string :=
  let n := nat_of_ascii c in
  if (n =? 34)%nat then backslash +:+ quote
  else if (n =? 92)%nat then backslash +:+ backslash
  else if (n =? 8)%nat then backslash +:+ "b"
  else if (n =? 12)%nat then backslash +:+ "f"
  else if (n =? 10)%nat then backslash +:+ "n"
  else if (n =? 13)%nat then backslash +:+ "r"
  else if (n =? 9)%nat then backslash +:+ "t"
  else if (n <? 32)%nat then backslash +:+ "u00" +:+ hex_digit (n / 16) +:+ hex_digit (n mod 16)
  else String c EmptyString.

Fixpoint escape (s : string) : string :=
  match s with
  | EmptyString => EmptyString
  | String c rest => escape_char c +:+ escape rest
  end.

Definition stringify_string (s : string) : string := quote +:+ escape s +:+ quote.

Definition stringify_field (key : string) (value : option string) : list string :=
  match value with
  | Some v => [stringify_string key +:+ ":" +:+ stringify_string v]
  | None => []
  end.

Definition stringify_block (c : ContentBlock) : string :=
  "{" +:+ JS.join "," (stringify_field "type" (block_type c) ++ stringify_field "text" (text c)) +:+ "}".

(** [JSON.stringify] of a tool result that has the fields of
    [interface McpToolResult] and no other. *)
Definition stringify_result (result : McpToolResult) : string :=
  match result_content result with
  | Some blocks =>
      "{" +:+ stringify_string "content" +:+ ":[" +:+ JS.join "," (stringify_block <$> blocks) +:+ "]}"
  | None => "{}"
  end.

(** A [JSON.parse] for the example worlds, which hand it no well-formed
    text but the empty object: that one it parses, every other text it
    rejects. *)
Definition parse_empty_object (s : string) : Exc + Json :=
  if String.eqb s "{}" then inr (JObject [])
  else inl (mkExc "SyntaxError" "Unexpected end of JSON input" None None).

Definition example_url : string := "http://localhost:8000/mcp".

Definition example_world (key : option string) (body : Exc + ChatRequest)
    (tools : Exc + option (list McpTool))
    (tool : nat → string → Exc + McpToolResult)
    (completions : nat → Exc + CompletionStream) : World :=
  {| OPENAI_API_KEY := key;
     MCP_SERVER_URL := Some example_url;
     request_json := body;
     listTools := λ _, tools;
     callTool := λ n _ toolName _, tool n toolName;
     create := λ n _, completions n;
     JSON_parse := parse_empty_object;
     JSON_stringify := stringify_result |}.

Definition text_chunk (c : string) : Chunk :=
  mkChunk (Some (mkDelta (Some c) None)).

Definition tool_chunk (i : nat) (id fname args : option string) : Chunk :=
  mkChunk (Some (mkDelta None
    (Some [mkToolCallDelta (Some i) id (Some (mkFunctionDelta fname args))]))).

Definition order_question : ChatRequest :=
  mkChatRequest [mkMessage user "Where is my order?"] "x" "friendly" "en".

Definition order_tools : list McpTool :=
  [mkTool "lookup_order" (Some "Look up an order") None; mkTool "track_parcel" None None].

Definition text_result (s : string) : McpToolResult :=
  mkResult (Some [mkBlock (Some "text") (Some s)]).

Definition malformed_body : Exc :=
  mkExc "SyntaxError" "Unexpected end of JSON input" None None.

(** The model asks for two tools; the first answers, the second call
    fails; the follow-up completion answers. *)
Definition two_calls_chunks : list Chunk :=
  [ text_chunk "Let me check.";
    tool_chunk 0 (Some "call_1") (Some "lookup_order") None;
    tool_chunk 1 (Some "call_2") (Some "track_parcel") None ].

Definition two_calls : list ToolCall :=
  [ mkToolCall "call_1" "lookup_order" EmptyString;
    mkToolCall "call_2" "track_parcel" EmptyString ].

Definition world_two_calls : World :=
  example_world (Some "sk-test") (inr order_question) (inr (Some order_tools))
    (λ n _, if (n =? 0)%nat then inr (text_result "Order 17 has shipped.")
            else inl (error "connect ECONNREFUSED"))
    (λ n, if (n =? 0)%nat then inr (Stream two_calls_chunks None)
          else inr (Stream [text_chunk "Your order has shipped."] None)).

(** One tool call, and the follow-up completion request fails. *)
Definition world_followup_down : World :=
  example_world (Some "sk-test") (inr order_question) (inr (Some order_tools))
    (λ _ _, inr (text_result "Order 17 has shipped."))
    (λ n, if (n =? 0)%nat
          then inr (Stream [ text_chunk "Let me check.";
                             tool_chunk 0 (Some "call_1") (Some "lookup_order") None ] None)
          else inl (error "upstream unavailable")).

(** Tool discovery fails; the model answers without tools. *)
Definition plain_answer : list Chunk :=
  [text_chunk "Please share "; text_chunk "your order number."].

Definition world_discovery_down : World :=
  example_world (Some "sk-test") (inr order_question) (inl (error "fetch failed"))
    (λ _ _, inl (error "fetch failed"))
    (λ _, inr (Stream plain_answer None)).

(** The first stream breaks off after one content chunk. *)
Definition world_broken_stream : World :=
  example_world (Some "sk-test") (inr order_question) (inr (Some []))
    (λ _ _, inl (error "fetch failed"))
    (λ _, inr (Stream [text_chunk "Please share "] (Some (error "socket hang up")))).

(** The body is not JSON; once with, once without the API key. *)
Definition world_bad_body : World :=
  example_world (Some "sk-test") (inl malformed_body) (inr (Some order_tools))
    (λ _ _, inl (error "fetch failed"))
    (λ _, inr (Stream plain_answer None)).

Definition world_bad_body_no_key : World :=
  example_world None (inl malformed_body) (inr (Some order_tools))
    (λ _ _, inl (error "fetch failed"))
    (λ _, inr (Stream plain_answer None)).

(** The caller's history carries a system message of its own. *)
Definition history_with_system : ChatRequest :=
  mkChatRequest [mkMessage system "Answer in rhymes."; mkMessage user "Where is my order?"]
    "x" "friendly" "en".

Definition world_system_history : World :=
  example_world (Some "sk-test") (inr history_with_system) (inr (Some []))
    (λ _ _, inl (error "fetch failed"))
    (λ _, inr (Stream plain_answer None)).

(** ** The content of a tool-result message, in the specification's words *)

(** The text field of a content block; a block that has none contributes
    the empty text, as an [undefined] element of a joined array does. *)
Definition spec_textField (b : ContentBlock) : string :=
  match text b with
  | Some t => t
  | None => EmptyString
  end.

(** The newline-joined text fields of all content blocks. This is the
    specification's side of the comparison: it is written with the
    library's [String.concat] and the line-feed character, and uses none
    of the definitions the handlers are made of. *)
Definition spec_joinedTextFields (blocks : list ContentBlock) : string :=
  String.concat (String "010"%char EmptyString) (List.map spec_textField blocks).

(** The content of a tool-result message as it follows from the tool's
    result [r]: the serialisation of [r] when [r] has no content list, an
    empty one, or one whose text fields joined by newlines are the empty
    string; the newline-joined text fields of all content blocks
    otherwise. *)
Definition contentFollows (w : World) (r : McpToolResult) (c : string) : Prop :=
  ((result_content r = None ∨ result_content r = Some [] ∨
    ∃ blocks, result_content r = Some blocks ∧ spec_joinedTextFields blocks = EmptyString) →
   c = JSON_stringify w r) ∧
  (∀ blocks, result_content r = Some blocks →
     spec_joinedTextFields blocks ≠ EmptyString → c = spec_joinedTextFields blocks).

(** A tool result of three content blocks, the second without a text. *)
Definition three_blocks : McpToolResult :=
  mkResult (Some [ mkBlock (Some "text") (Some "Order 17");
                   mkBlock (Some "image") None;
                   mkBlock (Some "text") (Some "has shipped.") ]).

Definition world_three_blocks : World :=
  example_world (Some "sk-test") (inr order_question) (inr (Some order_tools))
    (λ _ _, inr three_blocks)
    (λ n, if (n =? 0)%nat then inr (Stream two_calls_chunks None)
          else inr (Stream [text_chunk "Your order has shipped."] None)).

(** The model names index 1 only: slot 0 of the array stays a hole. *)
Definition sparse_chunks : list Chunk :=
  [tool_chunk 1 (Some "call_2") (Some "track_parcel") None].

Definition world_sparse : World :=
  example_world (Some "sk-test") (inr order_question) (inr (Some order_tools))
    (λ _ _, inr (text_result "In transit."))
    (λ _, inr (Stream sparse_chunks None)).

(** ** Closed forms of whole runs *)

(** The records before the first hole of the array: those the tool loop
    reaches. *)
Fixpoint leading (slots : list (option ToolCall)) : list ToolCall :=
  match slots with
  | Some tc :: rest => tc :: leading rest
  | _ => []
  end.

(** The invocation one accumulated call leads to: none when its argument
    text does not parse. *)
Definition parsedCall (w : World) (tc : ToolCall) : list (string * Json) :=
  match JSON_parse w (argumentText tc) with
  | inr args => [(tc_name tc, args)]
  | inl _ => []
  end.

(** A step of a tool loop, with what it does to the invocation log, and
    with the error it throws on a hole. *)
Definition accounts (w : World)
    (step : list MessageParam → option ToolCall → M (list MessageParam)) : Prop :=
  (∀ tm tc s, ∃ c,
      step tm (Some tc) s =
      (Ok (tm ++ [ToolMsg (tc_id tc) c]),
       mkSt (events s) (closed s) (requests s) (invocations s ++ parsedCall w tc))) ∧
  (∀ tm s, step tm None s = (Throw (undefined_read "id"), s)).

(** The text streamed by a run of events: the contents of its content
    events, in order. *)
Definition streamedText (evs : list StreamEvent) : string :=
  foldl (λ acc ev, match ev with EvContent c => acc +:+ c | _ => acc end) EmptyString evs.

(** [fullContent || null]. *)
Definition orNull (s : string) : option string :=
  if JS.truthy s then Some s else None.

(** The status event that opens the tool round of [Relay]. *)
Definition usingTools (slots : list (option ToolCall)) : StreamEvent :=
  EvStatus ("Using tools: " +:+ JS.join ", " (map Relay.slotName slots)).

(** The events of a follow-up request in [Relay], by its outcome. *)
Definition followUpEvents (outcome : Exc + CompletionStream) : list StreamEvent :=
  match outcome with
  | inl e => [followUpError e; EvDone]
  | inr (Stream cs None) => contentEvents cs ++ [EvDone]
  | inr (Stream cs (Some e)) => contentEvents cs ++ [followUpError e; EvDone]
  end.

(** The events of a follow-up request in [SrcRoute], by its outcome. *)
Definition followUpEventsSrc (outcome : Exc + CompletionStream) : list StreamEvent :=
  match outcome with
  | inl e => [EvError (errorToString e) None]
  | inr (Stream cs None) => contentEvents cs ++ [EvDone]
  | inr (Stream cs (Some e)) => contentEvents cs ++ [EvError (errorToString e) None]
  end.

(** The messages of the follow-up request, given the contents [cs] of the
    tool-result messages. *)
Definition toolMessagesOf (p1 : CompletionParams) (chunks : list Chunk) (cs : list string)
    : list MessageParam :=
  withAssistant (p_messages p1) (fullContentOf EmptyString chunks) (accumulate chunks) ++
  zip_with ToolMsg (tc_id <$> leading (accumulate chunks)) cs.

(** What [Relay.start] leaves behind, by what the outside world did;
    [cs] are the contents of the tool-result messages. *)
Definition RelayOutcome (w : World) (mcpUrl : string) (req : ChatRequest) (cs : list string) : St :=
  let p1 := Relay.firstParams req (Relay.getMcpTools w mcpUrl).1 in
  let pre := preamble w mcpUrl in
  match create w 0 p1 with
  | inl e => mkSt (pre ++ [EvError (Relay.classify e) None]) true [p1] []
  | inr (Stream chunks (Some e)) =>
      mkSt (pre ++ contentEvents chunks ++ [outerEvent e]) true [p1] []
  | inr (Stream chunks None) =>
      let slots := accumulate chunks in
      let made := leading slots ≫= parsedCall w in
      if (0 <? length slots)%nat then
        if decide (length (leading slots) = length slots) then
          let p2 := followUpParams req (toolMessagesOf p1 chunks cs) in
          mkSt (pre ++ contentEvents chunks ++ [usingTools slots] ++ followUpEvents (create w 1 p2))
               true [p1; p2] made
        else
          mkSt (pre ++ contentEvents chunks ++ [usingTools slots; outerEvent (undefined_read "id")])
               true [p1] made
      else mkSt (pre ++ contentEvents chunks ++ [EvDone]) true [p1] []
  end.

(** What [SrcRoute.start] leaves behind. *)
Definition SrcRouteOutcome (w : World) (mcpUrl : string) (req : ChatRequest) (cs : list string) : St :=
  let p1 := SrcRoute.firstParams req (SrcRoute.getMcpTools w mcpUrl) in
  match create w 0 p1 with
  | inl e => mkSt [EvError (errorToString e) None] true [p1] []
  | inr (Stream chunks (Some e)) =>
      mkSt (contentEvents chunks ++ [EvError (errorToString e) None]) true [p1] []
  | inr (Stream chunks None) =>
      let slots := accumulate chunks in
      let made := leading slots ≫= parsedCall w in
      if (0 <? length slots)%nat then
        if decide (length (leading slots) = length slots) then
          let p2 := followUpParams req (toolMessagesOf p1 chunks cs) in
          mkSt (contentEvents chunks ++ [EvStatus "Using tools..."] ++
                followUpEventsSrc (create w 1 p2))
               true [p1; p2] made
        else
          mkSt (contentEvents chunks ++
                [EvStatus "Using tools..."; EvError (errorToString (undefined_read "id")) None])
               true [p1] made
      else mkSt (contentEvents chunks ++ [EvDone]) true [p1] []
  end.

(** A terminal event of the stream. *)
Definition is_terminal (ev : StreamEvent) : bool :=
  match ev with
  | EvDone | EvError _ _ => true
  | _ => false
  end.

Definition is_warning (ev : StreamEvent) : bool :=
  match ev with
  | EvWarning _ => true
  | _ => false
  end.

(** The indices the fragments of a stream name. *)
Definition namedIndices (ds : list ToolCallDelta) : list nat := omap index ds.

(** How a stream ends: with [done], with [error], or with [error] and
    then [done]. *)
Inductive Ending : list StreamEvent → Prop :=
| ends_done : Ending [EvDone]
| ends_error c t : Ending [EvError c t]
| ends_error_done c t : Ending [EvError c t; EvDone].

(** The message of the status-500 response of [Relay] for a missing
    configuration value: the API key is looked at first. *)
Definition configurationError (w : World) : string :=
  if JS.truthy_opt (OPENAI_API_KEY w) then "MCP_SERVER_URL environment variable is not set"
  else "OPENAI_API_KEY environment variable is not set".

Definition configurationErrorSrc (w : World) : string :=
  if JS.truthy_opt (OPENAI_API_KEY w) then "MCP server URL not configured"
  else "API key not configured".

(** [{ type: "object", properties: {} }]. *)
Definition emptySchema : Json :=
  JObject [("type", JString "object"); ("properties", JObject [])].

(** A tool as offered to the model stands for a discovered tool: same
    name, its description or the empty string, its schema or the empty
    object schema. *)
Definition offers (tool : McpTool) (offered : OpenAITool) : Prop :=
  fn_name offered = tool_name tool ∧
  fn_description offered = default EmptyString (description tool) ∧
  fn_parameters offered = default emptySchema (inputSchema tool).

(** A world without the MCP endpoint. *)
Definition world_no_endpoint : World :=
  {| OPENAI_API_KEY := Some "sk-test";
     MCP_SERVER_URL := None;
     request_json := inr order_question;
     listTools := λ _, inr (Some order_tools);
     callTool := λ _ _ _ _, inl (error "fetch failed");
     create := λ _ _, inr (Stream plain_answer None);
     JSON_parse := parse_empty_object;
     JSON_stringify := stringify_result |}.

(** The completion API rejects the key. *)
Definition world_bad_key : World :=
  example_world (Some "sk-test") (inr order_question) (inr (Some order_tools))
    (λ _ _, inl (error "fetch failed"))
    (λ _, inl (mkExc "AuthenticationError" "Incorrect API key provided" (Some 401) None)).

(** Two tool calls; the argument text of the first is not JSON. *)
Definition broken_arguments_chunks : list Chunk :=
  [ tool_chunk 0 (Some "call_1") (Some "lookup_order") (Some "{");
    tool_chunk 1 (Some "call_2") (Some "track_parcel") None ].

Definition world_broken_arguments : World :=
  example_world (Some "sk-test") (inr order_question) (inr (Some order_tools))
    (λ _ _, inr (text_result "In transit."))
    (λ n, if (n =? 0)%nat then inr (Stream broken_arguments_chunks None)
          else inr (Stream [text_chunk "It is on its way."] None)).

(** The tool invocations of a turn, by the outcome of the first
    completion request: none unless its stream ended without an error;
    then one for each record before the first hole whose argument text
    parses, in order. *)
Definition invocationsOf (w : World) (first : Exc + CompletionStream) : list (string * Json) :=
  match first with
  | inr (Stream chunks None) => leading (accumulate chunks) ≫= parsedCall w
  | _ => []
  end.

(** The message the outer [catch] reports: [err.message || "Unknown error"]. *)
Definition reportedMessage (err : Exc) : string :=
  if JS.truthy (message err) then message err else "Unknown error".

(** ** The frames on the wire *)

(** [JSON.stringify] of an event object; its keys come in the order the
    handlers write them. *)
Definition stringify_event (ev : StreamEvent) : string :=
  let field key value := stringify_string key +:+ ":" +:+ stringify_string value in
  match ev with
  | EvStatus c => "{" +:+ field "type" "status" +:+ "," +:+ field "content" c +:+ "}"
  | EvWarning c => "{" +:+ field "type" "warning" +:+ "," +:+ field "content" c +:+ "}"
  | EvContent c => "{" +:+ field "type" "content" +:+ "," +:+ field "content" c +:+ "}"
  | EvError c None => "{" +:+ field "type" "error" +:+ "," +:+ field "content" c +:+ "}"
  | EvError c (Some t) =>
      "{" +:+ field "type" "error" +:+ "," +:+ field "content" c +:+ "," +:+
      field "errorType" t +:+ "}"
  | EvDone => "{" +:+ field "type" "done" +:+ "}"
  end.

(** The text of one frame: [`data: ${JSON.stringify(data)}\n\n`]. *)
Definition frame (ev : StreamEvent) : string :=
  "data: " +:+ stringify_event ev +:+ nl +:+ nl.

(** The text of a whole stream. *)
Definition wire (evs : list StreamEvent) : string :=
  foldr (λ ev rest, frame ev +:+ rest) EmptyString evs.

(** ** The browser client (part_001) *)

(** [new Error(msg)], under a name the page's role [error] does not hide. *)
Definition newError (msg : string) : Exc := error msg.

Module Page.

Definition is_nl (c : ascii) : bool := Ascii.eqb c (ascii_of_nat 10).

Definition cons_head (c : ascii) (pieces : list string) : list string :=
  match pieces with
  | [] => [String c EmptyString]
  | p :: ps => String c p :: ps
  end.

(** [s.split("\n\n")]: the pieces between the separators, found from the
    left. *)
Fixpoint split (s : string) : list string :=
  match s with
  | EmptyString => [EmptyString]
  | String c rest =>
      match rest with
      | String d rest' =>
          if is_nl c && is_nl d then EmptyString :: split rest'
          else cons_head c (split rest)
      | EmptyString => cons_head c (split rest)
      end
  end.

(** [s.slice(n)]. *)
Fixpoint slice (n : nat) (s : string) : string :=
  match n, s with
  | S n', String _ rest => slice n' rest
  | _, _ => s
  end.

(** [line.startsWith(p)]. *)
Definition startsWith (line p : string) : bool := String.prefix p line.

(** [interface Message] of the page. *)
Inductive Role := user | assistant | status | error.

Record Message := mkMessage {
  id : string;
  role : Role;
  content : string;
}.

(** The state of the page the submit handler reads and writes. *)
Record UI := mkUI {
  messages : list Message;
  input : string;
  isLoading : bool;
  statusText : string;
  model : string;
  tone : string;
}.

(** The body of the request the page sends. *)
Record Body := mkBody {
  body_messages : list (Role * string);
  body_model : string;
  body_tone : string;
}.

(** What [fetch] and the reads of the response body come to. *)
Inductive Fetched :=
| Rejected (e : Exc)
| NotOk
| NoBody
| Streaming (values : list string) (failure : option Exc).

Definition setStatus (s : string) (ui : UI) : UI :=
  mkUI (messages ui) (input ui) (isLoading ui) s (model ui) (tone ui).

(** [setMessages((prev) => prev.map((m) => m.id === id ? f(m) : m))]. *)
Definition updateMessage (target : string) (f : Message → Message) (ui : UI) : UI :=
  mkUI ((λ m, if decide (id m = target) then f m else m) <$> messages ui)
       (input ui) (isLoading ui) (statusText ui) (model ui) (tone ui).

Definition warningSign : string := "⚠️ ".

(** What the page does with one parsed frame. *)
Definition dispatch (assistantId : string) (data : StreamEvent) (ui : UI) : UI :=
  match data with
  | EvContent c =>
      updateMessage assistantId (λ m, mkMessage (id m) (role m) (content m +:+ c))
        (setStatus EmptyString ui)
  | EvStatus c => setStatus c ui
  | EvWarning c => setStatus (warningSign +:+ c) ui
  | EvError c _ =>
      updateMessage assistantId (λ m, mkMessage (id m) error c) (setStatus EmptyString ui)
  | EvDone => setStatus EmptyString ui
  end.

(** The body of [for (const line of lines)]; [parse] is [JSON.parse]
    followed by the reading of [data.type] and [data.content]: an error
    when one of them throws, [None] when [data.type] is none of the five
    types the page knows, and the event otherwise. *)
Definition processLine (parse : string → Exc + option StreamEvent) (assistantId : string)
    (line : string) (ui : UI) : UI * option Exc :=
  if startsWith line "data: " then
    match parse (slice 6 line) with
    | inr (Some data) => (dispatch assistantId data ui, None)
    | inr None => (ui, None)
    | inl e => (ui, Some e)
    end
  else (ui, None).

Fixpoint processLines (parse : string → Exc + option StreamEvent) (assistantId : string)
    (lines : list string) (ui : UI) : UI * option Exc :=
  match lines with
  | [] => (ui, None)
  | line :: rest =>
      match processLine parse assistantId line ui with
      | (ui', None) => processLines parse assistantId rest ui'
      | (ui', Some e) => (ui', Some e)
      end
  end.

(** The [while (true)] loop over the reads of the body: [values] are the
    texts the decoder makes of the chunks read, [failure] the error of a
    read that rejects after them. *)
Fixpoint readLoop (parse : string → Exc + option StreamEvent) (assistantId : string)
    (values : list string) (failure : option Exc) (buffer : string) (ui : UI)
    : UI * option Exc :=
  match values with
  | [] => (ui, failure)
  | value :: rest =>
      let lines := split (buffer +:+ value) in
      match processLines parse assistantId (removelast lines) ui with
      | (ui', None) => readLoop parse assistantId rest failure (List.last lines EmptyString) ui'
      | (ui', Some e) => (ui', Some e)
      end
  end.

(** [handleSubmit]: [trim] is [String.prototype.trim], [now1] and [now2]
    the two readings of the clock, [fetch] the answer to the request. The
    result is the state of the page when the handler has finished, and the
    body sent, if a request was made. *)
Definition handleSubmit (trim : string → string) (parse : string → Exc + option StreamEvent)
    (now1 now2 : nat) (fetch : Body → Fetched) (ui : UI) : UI * option Body :=
  if negb (JS.truthy (trim (input ui))) || isLoading ui then (ui, None)
  else
    let userMessage := mkMessage (pretty now1) user (trim (input ui)) in
    let assistantMessage := mkMessage (pretty (now2 + 1)) assistant EmptyString in
    let ui1 := mkUI (messages ui ++ [userMessage] ++ [assistantMessage]) EmptyString true
                    (statusText ui) (model ui) (tone ui) in
    let body := mkBody ((λ m, (role m, content m)) <$> (messages ui ++ [userMessage]))
                       (model ui) (tone ui) in
    let '(ui2, thrown) :=
      match fetch body with
      | Rejected e => (ui1, Some e)
      | NotOk => (ui1, Some (newError "Failed to send message"))
      | NoBody => (ui1, Some (newError "No reader"))
      | Streaming values failure =>
          readLoop parse (id assistantMessage) values failure EmptyString ui1
      end in
    let ui3 :=
      match thrown with
      | Some e =>
          updateMessage (id assistantMessage)
            (λ m, mkMessage (id m) error ("Connection failed: " +:+ message e)) ui2
      | None => ui2
      end in
    (mkUI (messages ui3) (input ui3) false EmptyString (model ui3) (tone ui3), Some body).

End Page.

(** ** Vocabulary for the browser client *)

(** The text a list of reads adds up to. *)
Definition readText (values : list string) : string :=
  foldr String.append EmptyString values.

Fixpoint has_nl (s : string) : bool :=
  match s with
  | EmptyString => false
  | String c rest => Page.is_nl c || has_nl rest
  end.

(** The line of a frame, as the page finds it between two separators. *)
Definition frameLine (ev : StreamEvent) : string := "data: " +:+ stringify_event ev.

(** What the frames of a stream make of one displayed message. *)
Definition shown (evs : list StreamEvent) (m : Page.Message) : Page.Message :=
  foldl (λ m ev,
    match ev with
    | EvContent c => Page.mkMessage (Page.id m) (Page.role m) (Page.content m +:+ c)
    | EvError c _ => Page.mkMessage (Page.id m) Page.error c
    | _ => m
    end) m evs.

Definition is_error (ev : StreamEvent) : bool :=
  match ev with
  | EvError _ _ => true
  | _ => false
  end.

(** [parse] reads back the events [evs] from their serialisation. *)
Definition readsBack (parse : string → Exc + option StreamEvent) (evs : list StreamEvent) : Prop :=
  Forall (λ ev, parse (stringify_event ev) = inr (Some ev)) evs.

(** The identifier of the in-progress assistant message is not the
    identifier of the user's message nor of any message of the history. *)
Definition freshIds (now1 now2 : nat) (ui : Page.UI) : Prop :=
  now1 ≠ now2 + 1 ∧ Forall (λ m, Page.id m ≠ pretty (now2 + 1)) (Page.messages ui).

(** The page after the submit handler has finished, when [reply] is what
    became of the assistant's placeholder. *)
Definition afterSubmit (trim : string → string) (now1 : nat) (ui : Page.UI)
    (reply : Page.Message) : Page.UI :=
  Page.mkUI
    (Page.messages ui ++ [Page.mkMessage (pretty now1) Page.user (trim (Page.input ui)); reply])
    EmptyString false EmptyString (Page.model ui) (Page.tone ui).

(** A [JSON.parse] for the examples: it reads back the serialisations of
    the events of a given table, and rejects every other text. *)
Definition parse_table (table : list StreamEvent) (s : string) : Exc + option StreamEvent :=
  match list_find (λ ev, stringify_event ev = s) table with
  | Some (_, ev) => inr (Some ev)
  | None => inl (mkExc "SyntaxError" "Unexpected token" None None)
  end.

(** A [trim] for the examples, exact on texts without surrounding
    white space, the only ones they use. *)
Definition trim_nothing (s : string) : string := s.

Definition answer_events : list StreamEvent :=
  [ EvStatus "Connecting to OpenAI..."; EvContent "Please share ";
    EvContent "your order number."; EvDone ].

Definition fresh_page : Page.UI :=
  Page.mkUI [] "Where is my order?" false EmptyString "gpt-5.2" "professional".

(** The page after the events [evs] have been dispatched, in order. *)
Definition replay (assistantId : string) (evs : list StreamEvent) (ui : Page.UI) : Page.UI :=
  foldl (λ ui ev, Page.dispatch assistantId ev ui) ui evs.

(** The placeholder the submit handler adds for the assistant's reply. *)
Definition placeholder (now2 : nat) : Page.Message :=
  Page.mkMessage (pretty (now2 + 1)) Page.assistant EmptyString.

(** The body of the request a submit sends. *)
Definition requestBody (trim : string → string) (ui : Page.UI) : Page.Body :=
  Page.mkBody
    (((λ m, (Page.role m, Page.content m)) <$> Page.messages ui) ++
     [(Page.user, trim (Page.input ui))])
    (Page.model ui) (Page.tone ui).

(** The message of the error thrown before the first read, if the
    response gives no stream to read. *)
Definition refusal (f : Page.Fetched) : option string :=
  match f with
  | Page.Rejected e => Some (message e)
  | Page.NotOk => Some "Failed to send message"
  | Page.NoBody => Some "No reader"
  | Page.Streaming _ _ => None
  end.

(** The submit handler can run: the input is not blank and no turn is in
    progress. *)
Definition canSubmit (trim : string → string) (ui : Page.UI) : Prop :=
  JS.truthy (trim (Page.input ui)) = true ∧ Page.isLoading ui = false.

(** [onChange={(e) => setInput(e.target.value)}]. *)
Definition typing (text : string) (ui : Page.UI) : Page.UI :=
  Page.mkUI (Page.messages ui) text (Page.isLoading ui) (Page.statusText ui)
            (Page.model ui) (Page.tone ui).

(** What the [catch] of the submit handler makes of the placeholder. *)
Definition connectionFailed (now2 : nat) (msg : string) : Page.Message :=
  Page.mkMessage (pretty (now2 + 1)) Page.error ("Connection failed: " +:+ msg).

(** A stream that ends with an error event and [done], as the relay
    sends it when the follow-up request fails. *)
Definition events_with_error : list StreamEvent :=
  [ EvContent "Let me check."; EvStatus "Using tools: lookup_order";
    EvContent "Your order ";
    EvError "[OPENAI] Follow-up request failed - upstream unavailable" None; EvDone ].

Ltac msimpl :=
  repeat (cbn [mbind mret M_bind M_ret throw try_catch liftE send close fst snd
               events closed requests invocations] in *;
          unfold mbind, mret in *).

Ltac st_simpl :=
  cbn [fst snd]; unfold shut, emit, issue, initial;
  cbn [events closed requests invocations app].

Ltac run_rest :=
  lazy beta iota zeta;
  repeat (unfold mbind, M_bind, mret, M_ret, send, close; lazy beta iota zeta);
  st_simpl.

Ltac run_rest_in H :=
  lazy beta iota zeta in H;
  repeat (unfold mbind, M_bind, mret, M_ret, send, close in H; lazy beta iota zeta in H);
  cbn [fst snd] in H; unfold shut, emit, issue, initial in H;
  cbn [events closed requests invocations app] in H.

Lemma St_eta (s : St) : mkSt (events s) (closed s) (requests s) (invocations s) = s.
Proof. by destruct s. Qed.

Lemma foldM_firstChunk (chunks : list Chunk) (fullContent : string)
    (toolCalls : list (option ToolCall)) (s : St) :
  foldM firstChunk (fullContent, toolCalls) chunks s =
  (Ok (fullContentOf fullContent chunks, mergeToolCalls toolCalls (chunks ≫= fragmentsOf)),
   mkSt (events s ++ contentEvents chunks) (closed s) (requests s) (invocations s)).
Proof.
  revert fullContent toolCalls s.
  induction chunks as [|chunk chunks IH]; intros fullContent toolCalls s.
  - cbn. by rewrite app_nil_r, St_eta.
  - cbn [foldM]. unfold mbind, M_bind at 1.
    unfold firstChunk, contentEvents, fullContentOf, fragmentsOf, contentOf, mergeToolCalls.
    cbn [mbind list_bind foldl].
    rewrite foldl_app.
    destruct (delta chunk ≫= delta_content) as [c|]; [destruct (JS.truthy c)|];
      destruct (delta chunk ≫= tool_calls) as [tcs|]; msimpl; unfold M_bind, M_ret, send;
      rewrite IH; cbn; rewrite <- ?app_assoc; try rewrite app_nil_r; reflexivity.
Qed.

Lemma foldM_followUpChunk (chunks : list Chunk) (s : St) :
  foldM followUpChunk tt chunks s =
  (Ok tt, mkSt (events s ++ contentEvents chunks) (closed s) (requests s) (invocations s)).
Proof.
  revert s. induction chunks as [|chunk chunks IH]; intros s.
  - cbn. by rewrite app_nil_r, St_eta.
  - cbn [foldM]. unfold mbind, M_bind at 1.
    unfold followUpChunk, contentEvents, contentOf. cbn [mbind list_bind].
    destruct (delta chunk ≫= delta_content) as [c|]; [destruct (JS.truthy c)|];
      unfold send, mret, M_ret; rewrite IH; cbn; rewrite <- ?app_assoc; reflexivity.
Qed.

(** ** JavaScript arrays *)

Section arrays.
Context {A : Type}.
Implicit Types (arr : list (option A)) (i j : nat) (v : A).

Lemma array_get_set arr i j v :
  JS.array_get (JS.array_set arr i v) j =
  if decide (i = j) then Some v else JS.array_get arr j.
Proof.
  unfold JS.array_get, JS.array_set.
  destruct (decide (i < length arr)) as [Hin|Hout].
  - destruct (decide (i = j)) as [<-|Hne].
    + by rewrite list_lookup_insert_eq.
    + by rewrite list_lookup_insert_ne.
  - destruct (decide (i = j)) as [<-|Hne].
    + rewrite lookup_app_r by lia.
      rewrite lookup_app_r by (rewrite length_replicate; lia).
      rewrite length_replicate.
      by replace (i - length arr - (i - length arr)) with 0 by lia.
    + destruct (decide (j < length arr)) as [Hj|Hj].
      * by rewrite lookup_app_l.
      * rewrite lookup_app_r by lia.
        rewrite (lookup_ge_None_2 arr j) by lia.
        destruct (decide (j - length arr < i - length arr)) as [Hlt|Hge].
        -- rewrite lookup_app_l by (rewrite length_replicate; lia).
           by rewrite lookup_replicate_2.
        -- rewrite lookup_app_r by (rewrite length_replicate; lia).
           rewrite length_replicate.
           rewrite lookup_ge_None_2; [done|]. cbn. lia.
Qed.

Lemma array_get_update arr i j (f : A → A) :
  JS.array_get (JS.array_update arr i f) j =
  if decide (i = j) then f <$> JS.array_get arr j else JS.array_get arr j.
Proof.
  unfold JS.array_get, JS.array_update.
  destruct (decide (i = j)) as [<-|Hne].
  - rewrite list_lookup_alter_eq. by destruct (arr !! i) as [[?|]|].
  - by rewrite list_lookup_alter_ne.
Qed.
End arrays.

(** ** Merging tool-call fragments *)

Lemma append_empty_r (s : string) : s +:+ EmptyString = s.
Proof.
  induction s as [|c s IH]; [done|].
  change (String c (s +:+ EmptyString) = String c s). by f_equal.
Qed.

Lemma append_empty_l (s : string) : EmptyString +:+ s = s.
Proof. done. Qed.

(** One fragment changes the slot of its own index only, and changes it
    as [mergeInto] says. *)
Lemma array_get_mergeToolCall (toolCalls : list (option ToolCall)) (tc : ToolCallDelta) (j : nat) :
  JS.array_get (mergeToolCall toolCalls tc) j =
  if decide (index tc = Some j) then Some (mergeInto (JS.array_get toolCalls j) tc)
  else JS.array_get toolCalls j.
Proof.
  unfold mergeToolCall, mergeInto.
  destruct (index tc) as [i|]; [|by rewrite decide_False].
  destruct (delta_id tc) as [vid|];
    destruct (function tc ≫= fd_name) as [vn|];
    destruct (function tc ≫= fd_arguments) as [va|];
    cbn [JS.or_default];
    repeat match goal with
           | |- context [JS.truthy ?v] => destruct (JS.truthy v) eqn:?
           end;
    destruct (JS.array_get toolCalls i) as [r|] eqn:Hget;
    (destruct (decide (Some i = Some j)) as [[= <-]|Hne];
     [ rewrite ?array_get_update, ?array_get_set, ?decide_True by done;
       rewrite ?Hget; cbn [fmap option_fmap option_map tc_id tc_name tc_arguments];
       rewrite ?append_empty_r, ?append_empty_l; try done
     | assert (i ≠ j) by congruence;
       rewrite ?array_get_update, ?array_get_set, ?decide_False by done; done ]).
  all: by destruct r.
Qed.

Lemma mergedRecord_snoc (ds : list ToolCallDelta) (d d0 : ToolCallDelta) :
  mergeInto (Some (mergedRecord (d0 :: ds))) d = mergedRecord ((d0 :: ds) ++ [d]).
Proof. unfold mergeInto, mergedRecord. by rewrite !foldl_app. Qed.

(** C1, as amended: the record the merge loop leaves at an index is
    determined by the fragments that carry this index, taken in their
    arrival order, and by nothing else: its id and its name are the last
    ones supplied, its argument text is the concatenation of the fragments'
    argument texts in arrival order. A slot no fragment named stays empty. *)
Theorem merge_by_index_in_arrival_order (ds : list ToolCallDelta) (i : nat) :
  JS.array_get (mergeToolCalls [] ds) i =
  match fragmentsAt i ds with
  | [] => None
  | own => Some (mergedRecord own)
  end.
Proof.
  unfold mergeToolCalls, fragmentsAt.
  induction ds as [|d ds IH] using rev_ind; [done|].
  rewrite foldl_app, filter_app. cbn [foldl].
  rewrite array_get_mergeToolCall, IH.
  rewrite filter_cons, filter_nil.
  destruct (decide (index d = Some i)) as [Hd|Hd].
  - destruct (filter _ ds) as [|d0 own].
    + done.
    + by rewrite mergedRecord_snoc.
  - by rewrite app_nil_r.
Qed.

(** C1, as stated, fails: the same two fragments of index 0 merged in the
    two possible orders leave different argument texts. *)
Lemma merge_depends_on_arrival_order :
  JS.array_get (mergeToolCalls [] [fragment_open; fragment_close]) 0 ≠
  JS.array_get (mergeToolCalls [] [fragment_close; fragment_open]) 0.
Proof. vm_compute. discriminate. Qed.

(** ** The tool loop *)

Section tool_loop.
Variable step : list MessageParam → option ToolCall → M (list MessageParam).
Hypothesis step_answers : answers step.

(** Over an array without holes the loop never throws and appends one
    tool-result message per record, in order. *)
Lemma foldM_step_dense (l : list ToolCall) (tm : list MessageParam) (s : St) :
  ∃ cs inv,
    length cs = length l ∧
    foldM step tm (Some <$> l) s =
    (Ok (tm ++ zip_with ToolMsg (tc_id <$> l) cs),
     mkSt (events s) (closed s) (requests s) inv).
Proof.
  revert tm s. induction l as [|tc l IH]; intros tm s.
  - exists [], (invocations s). cbn. by rewrite app_nil_r, St_eta.
  - destruct step_answers as [Hfilled _].
    destruct (Hfilled tm tc s) as (c & inv & Hstep).
    destruct (IH (tm ++ [ToolMsg (tc_id tc) c])
                 (mkSt (events s) (closed s) (requests s) inv)) as (cs & inv' & Hlen & Hrest).
    exists (c :: cs), inv'. split; [cbn; lia|].
    cbn [fmap list_fmap foldM]. unfold mbind, M_bind at 1.
    rewrite Hstep, Hrest. cbn. by rewrite <- app_assoc.
Qed.

(** Whatever the array holds, the loop leaves the stream and the list of
    completion requests as they were. *)
Lemma foldM_step_quiet (slots : list (option ToolCall)) (tm : list MessageParam) (s : St) :
  ∃ r inv, foldM step tm slots s = (r, mkSt (events s) (closed s) (requests s) inv).
Proof.
  revert tm s. induction slots as [|slot slots IH]; intros tm s.
  - exists (Ok tm), (invocations s). cbn. by rewrite St_eta.
  - destruct step_answers as [Hfilled Hhole].
    cbn [foldM]. unfold mbind, M_bind at 1.
    destruct slot as [tc|].
    + destruct (Hfilled tm tc s) as (c & inv & ->).
      destruct (IH (tm ++ [ToolMsg (tc_id tc) c])
                   (mkSt (events s) (closed s) (requests s) inv)) as (r & inv' & ->).
      by exists r, inv'.
    + destruct (Hhole tm s) as (e & ->).
      exists (Throw e), (invocations s). by rewrite St_eta.
Qed.
End tool_loop.

Lemma Relay_toolStep_answers (w : World) (mcpUrl : string) :
  answers (Relay.toolStep w mcpUrl).
Proof.
  split.
  - intros tm tc s. unfold Relay.toolStep, try_catch, liftE, mbind, M_bind.
    destruct (JSON_parse w _) as [e|args]; cbn.
    + eexists _, (invocations s). by rewrite St_eta.
    + unfold Relay.callMcpTool. destruct (callTool w _ _ _ _); cbn; by eexists _, _.
  - intros tm s. by eexists.
Qed.

Lemma SrcRoute_toolStep_answers (w : World) (mcpUrl : string) :
  answers (SrcRoute.toolStep w mcpUrl).
Proof.
  split.
  - intros tm tc s. unfold SrcRoute.toolStep, try_catch, liftE, mbind, M_bind.
    destruct (JSON_parse w _) as [e|args]; cbn.
    + eexists _, (invocations s). by rewrite St_eta.
    + unfold SrcRoute.callMcpTool. destruct (callTool w _ _ _ _); cbn; by eexists _, _.
  - intros tm s. by eexists.
Qed.

Lemma toolResultIds_app (a b : list MessageParam) :
  toolResultIds (a ++ b) = toolResultIds a ++ toolResultIds b.
Proof. apply omap_app. Qed.

Lemma toolResultIds_allMessages (prompt : string) (msgs : list Message) :
  toolResultIds (allMessages prompt msgs) = [].
Proof. unfold allMessages. cbn. induction msgs as [|m msgs IH]; [done|]. cbn. apply IH. Qed.

Lemma toolResultIds_zip (ids cs : list string) :
  length cs = length ids → toolResultIds (zip_with ToolMsg ids cs) = ids.
Proof.
  revert cs. induction ids as [|i ids IH]; intros [|c cs] Hlen; try done.
  cbn in *. f_equal. apply IH. lia.
Qed.

(** ** Runs of the handler with MCP error reporting *)

Lemma send_emit (ev : StreamEvent) (s : St) : send ev s = (Ok tt, emit [ev] s).
Proof. done. Qed.

Lemma Relay_announce_emit (mcpTools : list McpTool) (mcpError : option Relay.McpError) (s : St) :
  Relay.announce mcpTools mcpError s = (Ok tt, emit [announcement mcpTools mcpError] s).
Proof.
  unfold Relay.announce, announcement.
  destruct mcpError; [done|]. by destruct (length mcpTools =? 0)%nat.
Qed.

Lemma Relay_outerCatch_emit (e : Exc) (s : St) :
  Relay.outerCatch e s = (Ok tt, shut (emit [outerEvent e] s)).
Proof.
  unfold Relay.outerCatch, outerEvent, mbind, M_bind.
  destruct (_ || _ || _); [done|]. by destruct (JS.includes _ "JSON").
Qed.

Lemma Relay_POST_streams (w : World) (mcpUrl : string) (req : ChatRequest) :
  configured w mcpUrl → request_json w = inr req →
  Relay.POST w = EventStream (Relay.start w mcpUrl req initial).2.
Proof.
  intros (Hkey & Hurl & Htruthy) Hbody. unfold Relay.POST, unset.
  by rewrite Hkey, Hurl, Htruthy, Hbody.
Qed.

(** What is left of [Relay.orchestrate] once the first stream has ended. *)
Lemma Relay_orchestrate_run (w : World) (mcpUrl : string) (req : ChatRequest) :
  let p1 := Relay.firstParams req (Relay.getMcpTools w mcpUrl).1 in
  let s3 := issue p1 (emit (preamble w mcpUrl) initial) in
  Relay.orchestrate w mcpUrl req initial =
  match create w 0 p1 with
  | inl e => (Ok tt, shut (emit [EvError (Relay.classify e) None] s3))
  | inr (Stream chunks failure) =>
      let s4 := emit (contentEvents chunks) s3 in
      match failure with
      | Some e => (Throw e, s4)
      | None =>
          ((if (0 <? length (accumulate chunks))%nat
            then Relay.toolRound w mcpUrl req (p_messages p1)
                   (fullContentOf EmptyString chunks) (accumulate chunks)
            else mret tt) ≫= λ _, send EvDone ≫= λ _, close) s4
      end
  end.
Proof.
  intros p1 s3. subst p1 s3. unfold Relay.orchestrate, preamble.
  destruct (Relay.getMcpTools w mcpUrl) as [mcpTools mcpError]. cbn [fst].
  unfold mbind, M_bind at 1. rewrite send_emit.
  unfold mbind, M_bind at 1. rewrite Relay_announce_emit.
  unfold mbind, M_bind at 1. rewrite send_emit.
  unfold mbind, M_bind at 1.
  unfold try_catch at 1. unfold mbind, M_bind at 1. unfold completions_create at 1.
  cbn [requests emit initial length app events closed invocations].
  destruct (create w 0 _) as [e|[chunks failure]].
  - done.
  - cbn [mret M_ret]. unfold for_await. unfold mbind, M_bind at 1.
    unfold mbind, M_bind at 1. rewrite foldM_firstChunk.
    destruct failure as [e|]; [done|].
    cbn [mret M_ret throw]. done.
Qed.

Lemma Relay_followUp_run (w : World) (req : ChatRequest) (tm : list MessageParam) (s : St) :
  let p2 := followUpParams req tm in
  try_catch
    (followUp ← completions_create w p2; for_await followUp followUpChunk tt)
    (λ err, send (followUpError err)) s =
  match create w (length (requests s)) p2 with
  | inl e => (Ok tt, emit [followUpError e] (issue p2 s))
  | inr (Stream cs failure) =>
      (Ok tt, emit match failure with Some e => [followUpError e] | None => [] end
                (emit (contentEvents cs) (issue p2 s)))
  end.
Proof.
  intros p2. unfold try_catch, mbind, M_bind, completions_create.
  destruct (create w _ p2) as [e|[cs failure]]; [done|].
  unfold for_await, mbind, M_bind. rewrite foldM_followUpChunk.
  destruct failure as [e|]; cbn; [done|].
  unfold emit, issue; cbn. by rewrite app_nil_r.
Qed.

Lemma Relay_toolRound_run (w : World) (mcpUrl : string) (req : ChatRequest)
    (all : list MessageParam) (fullContent : string) (toolCalls : list (option ToolCall)) (s : St) :
  Relay.toolRound w mcpUrl req all fullContent toolCalls s =
  match foldM (Relay.toolStep w mcpUrl) (withAssistant all fullContent toolCalls) toolCalls
          (emit [EvStatus ("Using tools: " +:+ JS.join ", " (map Relay.slotName toolCalls))] s) with
  | (Ok tm, s') =>
      try_catch
        (followUp ← completions_create w (followUpParams req tm);
         for_await followUp followUpChunk tt)
        (λ err, send (followUpError err)) s'
  | (Throw e, s') => (Throw e, s')
  end.
Proof. done. Qed.

(** The tool round of [Relay] over an array without holes: the follow-up
    request carries one tool-result message per record. *)
Lemma Relay_tool_results (w : World) (mcpUrl : string) (req : ChatRequest)
    (chunks : list Chunk) (l : list ToolCall) :
  let p1 := Relay.firstParams req (Relay.getMcpTools w mcpUrl).1 in
  configured w mcpUrl → request_json w = inr req →
  l ≠ [] → accumulate chunks = Some <$> l →
  create w 0 p1 = inr (Stream chunks None) →
  ∃ st cs,
    Relay.POST w = EventStream st ∧
    length cs = length l ∧
    requests st =
      [p1; followUpParams req
             (withAssistant (p_messages p1) (fullContentOf EmptyString chunks) (Some <$> l)
              ++ zip_with ToolMsg (tc_id <$> l) cs)].
Proof.
  intros p1 Hconf Hbody Hne Hacc Hfirst.
  rewrite (Relay_POST_streams w mcpUrl req Hconf Hbody).
  unfold Relay.start, try_catch.
  rewrite Relay_orchestrate_run. fold p1. rewrite Hfirst. cbn zeta.
  rewrite Hacc, length_fmap.
  destruct l as [|tc0 l0]; [done|]. cbn [length Nat.ltb Nat.leb].
  set (l := tc0 :: l0) in *.
  unfold mbind at 1. unfold M_bind at 1. rewrite Relay_toolRound_run.
  match goal with |- context [foldM _ ?tm _ ?s] =>
    destruct (foldM_step_dense _ (Relay_toolStep_answers w mcpUrl) l tm s)
      as (cs & inv & Hlen & ->)
  end.
  rewrite Relay_followUp_run.
  clear Hfirst.
  match goal with |- context [create w ?n ?p] =>
    destruct (create w n p) as [e|[cs' [e|]]]
  end; cbn; (eexists _, cs; split; [reflexivity|]; split; [done|]; reflexivity).
Qed.

(** ** Runs of the handler of src/app/api/chat/route.ts *)

Lemma SrcRoute_POST_streams (w : World) (mcpUrl : string) (req : ChatRequest) :
  configured w mcpUrl → request_json w = inr req →
  SrcRoute.POST w =
  inr (EventStream (SrcRoute.start w mcpUrl req (SrcRoute.getMcpTools w mcpUrl) initial).2).
Proof.
  intros (Hkey & Hurl & Htruthy) Hbody. unfold SrcRoute.POST, unset.
  by rewrite Hkey, Hurl, Htruthy, Hbody.
Qed.

Lemma SrcRoute_orchestrate_run (w : World) (mcpUrl : string) (req : ChatRequest)
    (mcpTools : list McpTool) :
  let p1 := SrcRoute.firstParams req mcpTools in
  let s1 := issue p1 initial in
  SrcRoute.orchestrate w mcpUrl req mcpTools initial =
  match create w 0 p1 with
  | inl e => (Throw e, s1)
  | inr (Stream chunks failure) =>
      let s2 := emit (contentEvents chunks) s1 in
      match failure with
      | Some e => (Throw e, s2)
      | None =>
          ((if (0 <? length (accumulate chunks))%nat
            then SrcRoute.toolRound w mcpUrl req (p_messages p1)
                   (fullContentOf EmptyString chunks) (accumulate chunks)
            else mret tt) ≫= λ _, send EvDone ≫= λ _, close) s2
      end
  end.
Proof.
  intros p1 s1. subst p1 s1. unfold SrcRoute.orchestrate.
  unfold mbind, M_bind at 1. unfold completions_create at 1.
  cbn [requests initial length app events closed invocations].
  destruct (create w 0 _) as [e|[chunks failure]]; [done|].
  unfold for_await. unfold mbind, M_bind at 1.
  unfold mbind, M_bind at 1. rewrite foldM_firstChunk.
  by destruct failure as [e|].
Qed.

Lemma SrcRoute_followUp_run (w : World) (req : ChatRequest) (tm : list MessageParam) (s : St) :
  let p2 := followUpParams req tm in
  (followUp ← completions_create w p2; for_await followUp followUpChunk tt) s =
  match create w (length (requests s)) p2 with
  | inl e => (Throw e, issue p2 s)
  | inr (Stream cs failure) =>
      (match failure with Some e => Throw e | None => Ok tt end,
       emit (contentEvents cs) (issue p2 s))
  end.
Proof.
  intros p2. unfold mbind, M_bind, completions_create.
  destruct (create w _ p2) as [e|[cs failure]]; [done|].
  unfold for_await, mbind, M_bind. rewrite foldM_followUpChunk.
  by destruct failure as [e|].
Qed.

Lemma SrcRoute_toolRound_run (w : World) (mcpUrl : string) (req : ChatRequest)
    (all : list MessageParam) (fullContent : string) (toolCalls : list (option ToolCall)) (s : St) :
  SrcRoute.toolRound w mcpUrl req all fullContent toolCalls s =
  match foldM (SrcRoute.toolStep w mcpUrl) (withAssistant all fullContent toolCalls) toolCalls
          (emit [EvStatus "Using tools..."] s) with
  | (Ok tm, s') =>
      (followUp ← completions_create w (followUpParams req tm);
       for_await followUp followUpChunk tt) s'
  | (Throw e, s') => (Throw e, s')
  end.
Proof. done. Qed.

(** The tool round of [SrcRoute] over an array without holes. *)
Lemma SrcRoute_tool_results (w : World) (mcpUrl : string) (req : ChatRequest)
    (chunks : list Chunk) (l : list ToolCall) :
  let p1 := SrcRoute.firstParams req (SrcRoute.getMcpTools w mcpUrl) in
  configured w mcpUrl → request_json w = inr req →
  l ≠ [] → accumulate chunks = Some <$> l →
  create w 0 p1 = inr (Stream chunks None) →
  ∃ st cs,
    SrcRoute.POST w = inr (EventStream st) ∧
    length cs = length l ∧
    requests st =
      [p1; followUpParams req
             (withAssistant (p_messages p1) (fullContentOf EmptyString chunks) (Some <$> l)
              ++ zip_with ToolMsg (tc_id <$> l) cs)].
Proof.
  intros p1 Hconf Hbody Hne Hacc Hfirst.
  rewrite (SrcRoute_POST_streams w mcpUrl req Hconf Hbody).
  unfold SrcRoute.start, try_catch.
  rewrite SrcRoute_orchestrate_run. fold p1. rewrite Hfirst. cbn zeta.
  rewrite Hacc, length_fmap.
  destruct l as [|tc0 l0]; [done|]. cbn [length Nat.ltb Nat.leb].
  set (l := tc0 :: l0) in *.
  unfold mbind at 1. unfold M_bind at 1. rewrite SrcRoute_toolRound_run.
  match goal with |- context [foldM _ ?tm _ ?s] =>
    destruct (foldM_step_dense _ (SrcRoute_toolStep_answers w mcpUrl) l tm s)
      as (cs & inv & Hlen & ->)
  end.
  rewrite SrcRoute_followUp_run.
  clear Hfirst.
  match goal with |- context [create w ?n ?p] =>
    destruct (create w n p) as [e|[cs' [e|]]]
  end; cbn; (eexists _, cs; split; [reflexivity|]; split; [done|]; reflexivity).
Qed.

(** C2: when the first stream has ended and left a non-empty array of
    tool-call records [l], each handler issues its follow-up request with
    the message list of the first request, the assistant message, and then
    exactly one tool-result message per record of [l], in order, each
    tagged with its record's call identifier; this for every behaviour of
    [JSON.parse] and of the tool provider, failures included. *)
Theorem one_tool_result_per_call (w : World) (mcpUrl : string) (req : ChatRequest)
    (chunks : list Chunk) (l : list ToolCall) :
  configured w mcpUrl → request_json w = inr req →
  l ≠ [] → accumulate chunks = Some <$> l →
  (create w 0 (Relay.firstParams req (Relay.getMcpTools w mcpUrl).1) = inr (Stream chunks None) →
   ∃ st p1 p2 results,
     Relay.POST w = EventStream st ∧
     requests st = [p1; p2] ∧
     p_messages p2 =
       withAssistant (p_messages p1) (fullContentOf EmptyString chunks) (Some <$> l) ++ results ∧
     Forall2 (λ tc m, ∃ c, m = ToolMsg (tc_id tc) c) l results ∧
     toolResultIds (p_messages p2) = tc_id <$> l) ∧
  (create w 0 (SrcRoute.firstParams req (SrcRoute.getMcpTools w mcpUrl)) = inr (Stream chunks None) →
   ∃ st p1 p2 results,
     SrcRoute.POST w = inr (EventStream st) ∧
     requests st = [p1; p2] ∧
     p_messages p2 =
       withAssistant (p_messages p1) (fullContentOf EmptyString chunks) (Some <$> l) ++ results ∧
     Forall2 (λ tc m, ∃ c, m = ToolMsg (tc_id tc) c) l results ∧
     toolResultIds (p_messages p2) = tc_id <$> l).
Proof.
  intros Hconf Hbody Hne Hacc.
  assert (Hzip : ∀ cs : list string, length cs = length l →
            Forall2 (λ tc m, ∃ c, m = ToolMsg (tc_id tc) c) l (zip_with ToolMsg (tc_id <$> l) cs)).
  { clear. induction l as [|tc l IH]; intros [|c cs] Hlen; try done; cbn.
    constructor; [by eexists|]. apply IH. cbn in Hlen. lia. }
  assert (Hids : ∀ prompt fc (cs : list string), length cs = length l →
            toolResultIds (withAssistant (allMessages prompt (messages req)) fc (Some <$> l)
                           ++ zip_with ToolMsg (tc_id <$> l) cs) = tc_id <$> l).
  { intros prompt fc cs Hlen. unfold withAssistant.
    rewrite !toolResultIds_app, toolResultIds_allMessages. cbn.
    apply toolResultIds_zip. by rewrite length_fmap. }
  split; intros Hfirst.
  - destruct (Relay_tool_results w mcpUrl req chunks l Hconf Hbody Hne Hacc Hfirst)
      as (st & cs & HPOST & Hlen & Hreq).
    eexists st, _, _, _. repeat split; [done|exact Hreq|reflexivity|by apply Hzip|by apply Hids].
  - destruct (SrcRoute_tool_results w mcpUrl req chunks l Hconf Hbody Hne Hacc Hfirst)
      as (st & cs & HPOST & Hlen & Hreq).
    eexists st, _, _, _. repeat split; [done|exact Hreq|reflexivity|by apply Hzip|by apply Hids].
Qed.

(** ** The shape of every run *)

(** Whatever the outside world does, [Relay.start] sends its preamble
    first, issues the first completion request before any other, and
    closes the stream. *)
Lemma Relay_start_shape (w : World) (mcpUrl : string) (req : ChatRequest) :
  ∃ evs rest inv,
    (Relay.start w mcpUrl req initial).2 =
    mkSt (preamble w mcpUrl ++ evs) true
         (Relay.firstParams req (Relay.getMcpTools w mcpUrl).1 :: rest) inv.
Proof.
  unfold Relay.start, try_catch. rewrite Relay_orchestrate_run.
  destruct (create w 0 _) as [e|[chunks [e|]]]; lazy beta iota zeta.
  - by eexists _, _, _.
  - rewrite Relay_outerCatch_emit. st_simpl. rewrite <- ?app_assoc. by eexists _, _, _.
  - destruct (0 <? length (accumulate chunks))%nat.
    + unfold mbind at 1. unfold M_bind at 1. rewrite Relay_toolRound_run.
      match goal with |- context [foldM _ ?tm ?slots ?s] =>
        destruct (foldM_step_quiet _ (Relay_toolStep_answers w mcpUrl) slots tm s)
          as ([tm'|e] & inv & ->)
      end.
      * rewrite Relay_followUp_run.
        match goal with |- context [create w ?n ?p] =>
          destruct (create w n p) as [e|[cs [e|]]]
        end; run_rest; rewrite <- ?app_assoc; by eexists _, _, _.
      * lazy beta iota. rewrite Relay_outerCatch_emit. st_simpl. rewrite <- ?app_assoc.
        by eexists _, _, _.
    + run_rest. rewrite <- ?app_assoc. by eexists _, _, _.
Qed.

Lemma SrcRoute_start_shape (w : World) (mcpUrl : string) (req : ChatRequest)
    (mcpTools : list McpTool) :
  ∃ evs rest inv,
    (SrcRoute.start w mcpUrl req mcpTools initial).2 =
    mkSt evs true (SrcRoute.firstParams req mcpTools :: rest) inv.
Proof.
  unfold SrcRoute.start, try_catch. rewrite SrcRoute_orchestrate_run.
  destruct (create w 0 _) as [e|[chunks [e|]]]; cbn zeta.
  - by eexists _, _, _.
  - by eexists _, _, _.
  - destruct (0 <? length (accumulate chunks))%nat.
    + unfold mbind at 1. unfold M_bind at 1. rewrite SrcRoute_toolRound_run.
      match goal with |- context [foldM _ ?tm ?slots ?s] =>
        destruct (foldM_step_quiet _ (SrcRoute_toolStep_answers w mcpUrl) slots tm s)
          as ([tm'|e] & inv & ->)
      end.
      * rewrite SrcRoute_followUp_run.
        match goal with |- context [create w ?n ?p] =>
          destruct (create w n p) as [e|[cs [e|]]]
        end; cbn; by eexists _, _, _.
      * by eexists _, _, _.
    + by eexists _, _, _.
Qed.

(** ** Tool discovery and the first request *)

Lemma toolsField_never_empty (openaiTools : list OpenAITool) :
  toolsField openaiTools ≠ Some [].
Proof. by destruct openaiTools. Qed.

Lemma Relay_getMcpTools_failure (w : World) (mcpUrl : string) (e : Exc) :
  listTools w mcpUrl = inl e →
  ∃ mcpError,
    Relay.getMcpTools w mcpUrl = ([], Some mcpError) ∧
    announcement [] (Some mcpError) = EvWarning (discoveryWarning e).
Proof. intros He. unfold Relay.getMcpTools. rewrite He. by eexists. Qed.

Lemma Relay_no_tools_warning (w : World) (mcpUrl : string) :
  (Relay.getMcpTools w mcpUrl).1 = [] →
  ∃ text, announcement (Relay.getMcpTools w mcpUrl).1 (Relay.getMcpTools w mcpUrl).2 = EvWarning text.
Proof.
  destruct (Relay.getMcpTools w mcpUrl) as [mcpTools [mcpError|]]; cbn; intros ->; by eexists.
Qed.

(** C6: in the handler with MCP error reporting, a request that reaches
    the stream always issues a first completion request, and its [tools]
    field is never an empty list; when [listTools] fails the warning
    "MCP: Failed to connect to MCP server (detail). Proceeding without
    tools." is sent on the stream and the [tools] field is absent; more
    generally, with zero tools available a warning is sent and the [tools]
    field is absent. *)
Theorem discovery_failure_warns_and_omits_tools (w : World) (mcpUrl : string) (req : ChatRequest) :
  configured w mcpUrl → request_json w = inr req →
  ∃ st p1 rest,
    Relay.POST w = EventStream st ∧
    requests st = p1 :: rest ∧
    p_tools p1 ≠ Some [] ∧
    (∀ e, listTools w mcpUrl = inl e →
       EvWarning (discoveryWarning e) ∈ events st ∧ p_tools p1 = None) ∧
    ((Relay.getMcpTools w mcpUrl).1 = [] →
       (∃ text, EvWarning text ∈ events st) ∧ p_tools p1 = None).
Proof.
  intros Hconf Hbody.
  rewrite (Relay_POST_streams w mcpUrl req Hconf Hbody).
  destruct (Relay_start_shape w mcpUrl req) as (evs & rest & inv & ->).
  eexists _, _, rest. split; [done|]. split; [done|]. cbn [events requests p_tools Relay.firstParams].
  split; [apply toolsField_never_empty|]. split.
  - intros e He. destruct (Relay_getMcpTools_failure w mcpUrl e He) as (mcpError & Hget & Hann).
    unfold preamble. rewrite Hget, Hann. split; [set_solver|done].
  - intros Hzero. split.
    + destruct (Relay_no_tools_warning w mcpUrl Hzero) as (text & Hann).
      exists text. unfold preamble.
      destruct (Relay.getMcpTools w mcpUrl) as [mcpTools mcpError].
      cbn [fst snd] in Hann. rewrite Hann. set_solver.
    + by rewrite Hzero.
Qed.

(** ** The outbound message list *)

Lemma systemCount_allMessages (prompt : string) (msgs : list Message) :
  systemCount (allMessages prompt msgs) = S (callerSystemCount msgs).
Proof.
  unfold systemCount, callerSystemCount, allMessages. cbn. f_equal.
  induction msgs as [|[[] c] msgs IH]; cbn; [done|exact IH|exact IH|by f_equal].
Qed.

(** C8, as amended: the message list of the first completion request is
    the handler's system message followed by the caller's messages in
    their order; the system message is first, and the list holds one
    system message more than the caller's history does, so exactly one
    when the caller supplied none. *)
Theorem system_message_leads (w : World) (mcpUrl : string) (req : ChatRequest) :
  configured w mcpUrl → request_json w = inr req →
  (∃ st p1 rest prompt,
     Relay.POST w = EventStream st ∧ requests st = p1 :: rest ∧
     p_messages p1 = ChatMsg system prompt :: ((λ m, ChatMsg (role m) (content m)) <$> messages req) ∧
     systemCount (p_messages p1) = S (callerSystemCount (messages req))) ∧
  (∃ st p1 rest prompt,
     SrcRoute.POST w = inr (EventStream st) ∧ requests st = p1 :: rest ∧
     p_messages p1 = ChatMsg system prompt :: ((λ m, ChatMsg (role m) (content m)) <$> messages req) ∧
     systemCount (p_messages p1) = S (callerSystemCount (messages req))).
Proof.
  intros Hconf Hbody. split.
  - rewrite (Relay_POST_streams w mcpUrl req Hconf Hbody).
    destruct (Relay_start_shape w mcpUrl req) as (evs & rest & inv & ->).
    eexists _, _, rest, _. split; [done|]. split; [done|]. split; [reflexivity|].
    apply systemCount_allMessages.
  - rewrite (SrcRoute_POST_streams w mcpUrl req Hconf Hbody).
    destruct (SrcRoute_start_shape w mcpUrl req (SrcRoute.getMcpTools w mcpUrl))
      as (evs & rest & inv & ->).
    eexists _, _, rest, _. split; [done|]. split; [done|]. split; [reflexivity|].
    apply systemCount_allMessages.
Qed.

(** ** A first answer without tool calls *)

Lemma contentEvents_are_content (chunks : list Chunk) :
  Forall (λ ev, is_content ev = true) (contentEvents chunks).
Proof.
  unfold contentEvents. induction chunks as [|chunk chunks IH]; cbn; [constructor|].
  apply Forall_app. split; [|exact IH].
  unfold contentOf. destruct (delta chunk ≫= delta_content) as [c|]; [|constructor].
  destruct (JS.truthy c); repeat constructor.
Qed.

Lemma preamble_has_no_content (w : World) (mcpUrl : string) :
  Forall (λ ev, is_content ev = false) (preamble w mcpUrl).
Proof.
  unfold preamble, announcement.
  destruct (Relay.getMcpTools w mcpUrl) as [mcpTools [mcpError|]].
  - repeat constructor.
  - destruct (length mcpTools =? 0)%nat; repeat constructor.
Qed.

Lemma accumulate_no_fragments (chunks : list Chunk) :
  chunks ≫= fragmentsOf = [] → accumulate chunks = [].
Proof. unfold accumulate. by intros ->. Qed.

(** C7, as amended: when the first completion stream yields no tool-call
    fragment, each handler issues no second completion request and
    invokes no tool; when moreover the stream ends without an error, the
    events are the handler's preamble (which holds no content event), the
    content events of the stream, and then [done] at once; when the stream
    breaks off, the event after the last content event is an [error]
    event instead. The stream is closed either way. *)
Theorem no_fragments_no_tool_round (w : World) (mcpUrl : string) (req : ChatRequest)
    (chunks : list Chunk) (failure : option Exc) :
  configured w mcpUrl → request_json w = inr req →
  chunks ≫= fragmentsOf = [] →
  Forall (λ ev, is_content ev = false) (preamble w mcpUrl) ∧
  Forall (λ ev, is_content ev = true) (contentEvents chunks) ∧
  (∀ p1, p1 = Relay.firstParams req (Relay.getMcpTools w mcpUrl).1 →
     create w 0 p1 = inr (Stream chunks failure) →
     ∃ st,
       Relay.POST w = EventStream st ∧
       requests st = [p1] ∧ invocations st = [] ∧ closed st = true ∧
       events st = preamble w mcpUrl ++ contentEvents chunks ++
                   [match failure with None => EvDone | Some e => outerEvent e end]) ∧
  (∀ p1, p1 = SrcRoute.firstParams req (SrcRoute.getMcpTools w mcpUrl) →
     create w 0 p1 = inr (Stream chunks failure) →
     ∃ st,
       SrcRoute.POST w = inr (EventStream st) ∧
       requests st = [p1] ∧ invocations st = [] ∧ closed st = true ∧
       events st = contentEvents chunks ++
                   [match failure with None => EvDone | Some e => EvError (errorToString e) None end]).
Proof.
  intros Hconf Hbody Hnone.
  split; [apply preamble_has_no_content|]. split; [apply contentEvents_are_content|].
  split; intros p1 -> Hfirst.
  - rewrite (Relay_POST_streams w mcpUrl req Hconf Hbody).
    unfold Relay.start, try_catch. rewrite Relay_orchestrate_run, Hfirst.
    lazy beta iota zeta. rewrite (accumulate_no_fragments chunks Hnone).
    cbn [length Nat.ltb Nat.leb].
    destruct failure as [e|].
    + rewrite Relay_outerCatch_emit. st_simpl. rewrite <- ?app_assoc. eexists; (split; [reflexivity|]); cbn [requests invocations closed events]; (repeat apply conj); reflexivity.
    + run_rest. rewrite <- ?app_assoc. eexists; (split; [reflexivity|]); cbn [requests invocations closed events]; (repeat apply conj); reflexivity.
  - rewrite (SrcRoute_POST_streams w mcpUrl req Hconf Hbody).
    unfold SrcRoute.start, try_catch. rewrite SrcRoute_orchestrate_run, Hfirst.
    lazy beta iota zeta. rewrite (accumulate_no_fragments chunks Hnone).
    cbn [length Nat.ltb Nat.leb].
    destruct failure as [e|].
    + run_rest. eexists; (split; [reflexivity|]); cbn [requests invocations closed events]; (repeat apply conj); reflexivity.
    + run_rest. eexists; (split; [reflexivity|]); cbn [requests invocations closed events]; (repeat apply conj); reflexivity.
Qed.

(** ** A failing follow-up request *)

(** In the handler with MCP error reporting a follow-up request that
    fails is reported by an [error] event, after which [done] is sent and
    the stream closed; the events sent before stay as they were. *)
Lemma Relay_followUp_failure_reported (w : World) (mcpUrl : string) (req : ChatRequest)
    (chunks : list Chunk) (failure : option Exc) (st : St) (p2 : CompletionParams) (e : Exc) :
  configured w mcpUrl → request_json w = inr req →
  create w 0 (Relay.firstParams req (Relay.getMcpTools w mcpUrl).1) = inr (Stream chunks failure) →
  Relay.POST w = EventStream st →
  requests st !! 1 = Some p2 →
  followUpFails w p2 e →
  closed st = true ∧
  ∃ mid, events st = preamble w mcpUrl ++ contentEvents chunks ++ mid ++ [followUpError e; EvDone].
Proof.
  intros Hconf Hbody Hfirst HPOST Hsecond Hfails.
  rewrite (Relay_POST_streams w mcpUrl req Hconf Hbody) in HPOST.
  injection HPOST as Hst.
  unfold Relay.start, try_catch in Hst. rewrite Relay_orchestrate_run, Hfirst in Hst.
  lazy beta iota zeta in Hst. clear Hfirst.
  destruct failure as [e1|].
  { rewrite Relay_outerCatch_emit in Hst. by subst st. }
  destruct (0 <? length (accumulate chunks))%nat; [|by subst st].
  unfold mbind at 1 in Hst. unfold M_bind at 1 in Hst. rewrite Relay_toolRound_run in Hst.
  match type of Hst with context [foldM _ ?tm ?slots ?s] =>
    destruct (foldM_step_quiet _ (Relay_toolStep_answers w mcpUrl) slots tm s)
      as ([tm'|e1] & inv & Hloop)
  end; rewrite Hloop in Hst; clear Hloop.
  2:{ lazy beta iota in Hst. rewrite Relay_outerCatch_emit in Hst. by subst st. }
  rewrite Relay_followUp_run in Hst.
  unfold shut, emit, issue, initial in Hst.
  cbn [events closed requests invocations app length] in Hst.
  destruct (create w 1 (followUpParams req tm')) as [e0|[cs [e0|]]] eqn:Hcreate;
    subst st; run_rest_in Hsecond; cbn [lookup list_lookup] in Hsecond;
    injection Hsecond as <-; destruct Hfails as [Hf|[cs' Hf]];
    rewrite Hcreate in Hf; try discriminate; injection Hf as <-; subst;
    (split; [done|]); run_rest; rewrite <- ?app_assoc.
  - by eexists [_].
  - by eexists (_ :: contentEvents cs).
Qed.

(** In the handler of src/app/api/chat/route.ts a follow-up request that
    fails is reported by the outer [catch]: the [error] event is the last
    event of the stream, which is closed without a [done] event. *)
Lemma SrcRoute_followUp_failure_no_done (w : World) (mcpUrl : string) (req : ChatRequest)
    (chunks : list Chunk) (failure : option Exc) (st : St) (p2 : CompletionParams) (e : Exc) :
  configured w mcpUrl → request_json w = inr req →
  create w 0 (SrcRoute.firstParams req (SrcRoute.getMcpTools w mcpUrl)) =
    inr (Stream chunks failure) →
  SrcRoute.POST w = inr (EventStream st) →
  requests st !! 1 = Some p2 →
  followUpFails w p2 e →
  closed st = true ∧
  ∃ mid, events st = contentEvents chunks ++ mid ++ [EvError (errorToString e) None].
Proof.
  intros Hconf Hbody Hfirst HPOST Hsecond Hfails.
  rewrite (SrcRoute_POST_streams w mcpUrl req Hconf Hbody) in HPOST.
  injection HPOST as Hst.
  unfold SrcRoute.start, try_catch in Hst. rewrite SrcRoute_orchestrate_run, Hfirst in Hst.
  lazy beta iota zeta in Hst. clear Hfirst.
  destruct failure as [e1|]; [by subst st|].
  destruct (0 <? length (accumulate chunks))%nat; [|by subst st].
  unfold mbind at 1 in Hst. unfold M_bind at 1 in Hst. rewrite SrcRoute_toolRound_run in Hst.
  match type of Hst with context [foldM _ ?tm ?slots ?s] =>
    destruct (foldM_step_quiet _ (SrcRoute_toolStep_answers w mcpUrl) slots tm s)
      as ([tm'|e1] & inv & Hloop)
  end; rewrite Hloop in Hst; clear Hloop.
  2:{ by subst st. }
  rewrite SrcRoute_followUp_run in Hst.
  unfold shut, emit, issue, initial in Hst.
  cbn [events closed requests invocations app length] in Hst.
  destruct (create w 1 (followUpParams req tm')) as [e0|[cs [e0|]]] eqn:Hcreate;
    subst st; run_rest_in Hsecond; cbn [lookup list_lookup] in Hsecond;
    injection Hsecond as <-; destruct Hfails as [Hf|[cs' Hf]];
    rewrite Hcreate in Hf; try discriminate; injection Hf as <-; subst;
    (split; [done|]); run_rest; rewrite <- ?app_assoc.
  - by eexists [_].
  - by eexists (_ :: contentEvents cs).
Qed.

(** C3 against the handler of src/app/api/chat/route.ts: the follow-up
    request is issued outside any [try] of its own, so when it fails the
    outer [catch] sends the [error] event and closes the stream; no [done]
    event follows. The handler with MCP error reporting, on the same
    input, sends [error] and then [done]. *)
Theorem followUp_failure_ends_without_done :
  (∃ st,
     SrcRoute.POST world_followup_down = inr (EventStream st) ∧
     length (requests st) = 2 ∧
     events st = [ EvContent "Let me check."; EvStatus "Using tools...";
                   EvError "Error: upstream unavailable" None ] ∧
     (EvDone ∉ events st) ∧
     closed st = true) ∧
  (∃ st,
     Relay.POST world_followup_down = EventStream st ∧
     length (requests st) = 2 ∧
     events st = [ EvStatus "Connecting to MCP server...";
                   EvStatus "MCP: Connected (2 tools available)";
                   EvStatus "Connecting to OpenAI...";
                   EvContent "Let me check.";
                   EvStatus "Using tools: lookup_order";
                   EvError "[OPENAI] Follow-up request failed - upstream unavailable" None;
                   EvDone ] ∧
     closed st = true).
Proof.
  split; eexists; (split; [vm_compute; reflexivity|]); [|by vm_compute].
  split; [done|]. split; [done|]. split; [|done].
  cbn [events]. rewrite !not_elem_of_cons. repeat split; try discriminate. apply not_elem_of_nil.
Qed.

(** ** A request body that is not JSON *)

(** C4, as amended: when the body is missing or fails to parse, the
    handler with MCP error reporting answers with a JSON error response
    and opens no stream: status 400 and the payload "Invalid JSON in
    request body" when both configuration values are present, and the
    status-500 configuration error, whose guards come first, when one of
    them is not. *)
Theorem malformed_body_rejected (w : World) (e : Exc) :
  request_json w = inl e →
  (∀ mcpUrl, configured w mcpUrl →
     Relay.POST w = JsonResponse 400 "Invalid JSON in request body") ∧
  ((∀ mcpUrl, ¬ configured w mcpUrl) → ∃ payload, Relay.POST w = JsonResponse 500 payload) ∧
  (∃ status payload, Relay.POST w = JsonResponse status payload ∧ (status = 400 ∨ status = 500)).
Proof.
  intros Hbody. unfold Relay.POST, unset, configured. rewrite Hbody.
  destruct (JS.truthy_opt (OPENAI_API_KEY w)); cbn [negb].
  - destruct (MCP_SERVER_URL w) as [url|].
    + destruct (JS.truthy url) eqn:Hurl; cbn [negb].
      * split; [done|]. split; [|by eexists _, _; split; [|left]].
        intros Hnot. by destruct (Hnot url).
      * split; [by intros ? (_ & [= <-] & ?); congruence|].
        split; [by eexists|]. eexists _, _. split; [done|by right].
    + split; [by intros ? (_ & [=] & _)|].
      split; [by eexists|]. eexists _, _. split; [done|by right].
  - split; [by intros ? ([=] & _)|].
    split; [by eexists|]. eexists _, _. split; [done|by right].
Qed.

(** The handler of src/app/api/chat/route.ts awaits [request.json()]
    outside any [try]: on such a body it rejects instead of responding. *)
Lemma SrcRoute_malformed_body_rejects (w : World) (mcpUrl : string) (e : Exc) :
  configured w mcpUrl → request_json w = inl e → SrcRoute.POST w = inl e.
Proof.
  intros (Hkey & Hurl & Htruthy) Hbody. unfold SrcRoute.POST, unset.
  by rewrite Hkey, Hurl, Htruthy, Hbody.
Qed.

(** ** A failing tool call *)

Lemma prefix_append (s post : string) : String.prefix s (s +:+ post) = true.
Proof.
  induction s as [|c s IH].
  - change (String.prefix EmptyString post = true). by destruct post.
  - change (String.prefix (String c s) (String c (s +:+ post)) = true).
    cbn. by destruct (Ascii.ascii_dec c c).
Qed.

Lemma includes_prefix (hay needle : string) :
  String.prefix needle hay = true → JS.includes hay needle = true.
Proof. intros Hp. destruct hay; cbn [JS.includes]; by rewrite Hp. Qed.

Lemma includes_append (pre s post : string) : JS.includes (pre +:+ s +:+ post) s = true.
Proof.
  induction pre as [|c pre IH].
  - change (JS.includes (s +:+ post) s = true). apply includes_prefix, prefix_append.
  - change (JS.includes (String c (pre +:+ s +:+ post)) s = true).
    cbn [JS.includes]. rewrite IH. apply orb_true_r.
Qed.

Lemma append_associative (a b c : string) : (a +:+ b) +:+ c = a +:+ b +:+ c.
Proof.
  induction a as [|x a IH]; [done|].
  change (String x ((a +:+ b) +:+ c) = String x (a +:+ b +:+ c)). by f_equal.
Qed.

Lemma includes_suffix (pre s : string) : JS.includes (pre +:+ s) s = true.
Proof. rewrite <- (append_empty_r s) at 1. apply includes_append. Qed.

(** In the handler with MCP error reporting a tool call that fails does
    not raise: it returns a synthetic result whose text holds the tool's
    name and the failure detail. *)
Lemma Relay_callMcpTool_failure (w : World) (mcpUrl toolName : string) (args : Json)
    (s : St) (e : Exc) :
  callTool w (length (invocations s)) mcpUrl toolName args = inl e →
  ∃ s',
    Relay.callMcpTool w mcpUrl toolName args s = (Ok (text_result (toolErrorText toolName e)), s') ∧
    JS.includes (toolErrorText toolName e) toolName = true ∧
    JS.includes (toolErrorText toolName e) (message e) = true.
Proof.
  intros Hcall. unfold Relay.callMcpTool. rewrite Hcall. eexists. split; [done|].
  unfold toolErrorText. split.
  - apply includes_append.
  - rewrite <- (append_associative toolName "): " (message e)).
    rewrite <- (append_associative "MCP tool error (" (toolName +:+ "): ") (message e)).
    apply includes_suffix.
Qed.

(** The orchestrator forwards the synthetic text as it forwards the text
    of any tool result. *)
Lemma Relay_tool_failure_forwarded (w : World) (mcpUrl : string) (tm : list MessageParam)
    (tc : ToolCall) (args : Json) (s : St) (e : Exc) :
  JSON_parse w (argumentText tc) = inr args →
  callTool w (length (invocations s)) mcpUrl (tc_name tc) args = inl e →
  ∃ s',
    Relay.toolStep w mcpUrl tm (Some tc) s =
    (Ok (tm ++ [ToolMsg (tc_id tc) (toolErrorText (tc_name tc) e)]), s').
Proof.
  intros Hparse Hcall. unfold Relay.toolStep, try_catch, mbind, M_bind.
  fold (argumentText tc). rewrite Hparse. cbn [liftE mret M_ret].
  unfold Relay.callMcpTool. rewrite Hcall. by eexists.
Qed.

(** In the handler of src/app/api/chat/route.ts the synthetic text is
    a fixed prefix followed by the error converted to a string; the
    tool's name is not part of it. *)
Lemma SrcRoute_callMcpTool_failure (w : World) (mcpUrl toolName : string) (args : Json)
    (s : St) (e : Exc) :
  callTool w (length (invocations s)) mcpUrl toolName args = inl e →
  ∃ s',
    SrcRoute.callMcpTool w mcpUrl toolName args s =
    (Ok (text_result ("Error calling tool: " +:+ errorToString e)), s').
Proof. intros Hcall. unfold SrcRoute.callMcpTool. rewrite Hcall. by eexists. Qed.

(** C5 against the handler of src/app/api/chat/route.ts: with the tool
    provider unreachable, the synthetic result of [callMcpTool] for the
    tool [lookup_order] reads "Error calling tool: Error: fetch failed";
    it holds the failure detail but not the tool's name. The handler with
    MCP error reporting returns "MCP tool error (lookup_order): fetch
    failed" for the same call. *)
Theorem tool_error_text_omits_tool_name :
  (SrcRoute.callMcpTool world_discovery_down example_url "lookup_order" (JObject []) initial).1 =
    Ok (text_result "Error calling tool: Error: fetch failed") ∧
  JS.includes "Error calling tool: Error: fetch failed" "lookup_order" = false ∧
  (Relay.callMcpTool world_discovery_down example_url "lookup_order" (JObject []) initial).1 =
    Ok (text_result "MCP tool error (lookup_order): fetch failed").
Proof. by vm_compute. Qed.

(** ** Tone and language *)

Lemma getTonePrompt_known :
  getTonePrompt "professional" = JS.VString professional ∧
  getTonePrompt "friendly" = JS.VString friendly ∧
  getTonePrompt "concise" = JS.VString concise.
Proof. by vm_compute. Qed.

(** A tone that is neither one of the three nor the name of a property
    every object inherits yields the professional text. *)
Lemma getTonePrompt_default (tone : string) :
  tone ∉ ["professional"; "friendly"; "concise"] →
  tone ∉ JS.object_prototype_keys →
  getTonePrompt tone = JS.VString professional.
Proof.
  intros Hown Hproto. unfold getTonePrompt, JS.get_property, tones.
  rewrite !not_elem_of_cons in Hown. destruct_and! Hown.
  rewrite !lookup_insert_ne, lookup_singleton_ne by congruence.
  by rewrite bool_decide_false.
Qed.

(** A language code that is neither known nor the name of an inherited
    property yields the default, English. *)
Lemma getLanguageName_default (code : string) :
  code ∉ ["en"; "es"; "fr"; "de"; "pt"; "zh"; "ja"; "ko"; "ar"] →
  code ∉ JS.object_prototype_keys →
  Relay.getLanguageName code = JS.VString "English".
Proof.
  intros Hown Hproto. unfold Relay.getLanguageName, JS.get_property, Relay.languages.
  rewrite !not_elem_of_cons in Hown. destruct_and! Hown.
  rewrite !lookup_insert_ne, lookup_singleton_ne by congruence.
  by rewrite bool_decide_false.
Qed.

(** C9 against the code: the tone [constructor] is outside the three
    tones, yet [tones[tone]] finds the property every object inherits
    under that name, which is truthy, so the fallback is not taken: the
    prompt carries the text of a native function in place of the
    professional tone text. A language code of that kind does the same to
    the language name. Nothing is thrown. *)
Theorem inherited_property_name_as_tone :
  getTonePrompt "constructor" = JS.VInherited "constructor" ∧
  JS.ToString (getTonePrompt "constructor") = "function Object() { [native code] }" ∧
  JS.ToString (getTonePrompt "constructor") ≠ professional ∧
  JS.ToString (Relay.getLanguageName "toString") = "function toString() { [native code] }" ∧
  JS.includes (Relay.systemPrompt "constructor" "en") professional = false.
Proof. by vm_compute. Qed.

(** ** The content of a tool-result message *)

Lemma truthy_false_iff (s : string) : JS.truthy s = false ↔ s = EmptyString.
Proof. by destruct s. Qed.

Lemma join_cons_cons (sep x y : string) (l : list string) :
  JS.join sep (x :: y :: l) = x +:+ sep +:+ JS.join sep (y :: l).
Proof. done. Qed.

Lemma concat_cons_cons (sep x y : string) (l : list string) :
  String.concat sep (x :: y :: l) = x +:+ sep +:+ String.concat sep (y :: l).
Proof. done. Qed.

Lemma default_text_spec (b : ContentBlock) :
  default EmptyString (text b) = spec_textField b.
Proof. unfold spec_textField. by destruct (text b). Qed.

(** The handlers' [map] and [join] give the newline-joined text fields. *)
Lemma join_textFields_spec (blocks : list ContentBlock) :
  JS.join nl (textFields blocks) = spec_joinedTextFields blocks.
Proof.
  unfold spec_joinedTextFields, textFields.
  induction blocks as [|b [|b' blocks] IH]; [done|apply default_text_spec|].
  cbn [fmap list_fmap List.map] in *.
  by rewrite join_cons_cons, concat_cons_cons, IH, default_text_spec.
Qed.

Lemma resultText_follows (w : World) (r : McpToolResult) :
  contentFollows w r (resultText w r).
Proof.
  unfold contentFollows, resultText, joinedText.
  destruct (result_content r) as [blocks|]; cbn [fmap option_fmap option_map].
  - rewrite join_textFields_spec. destruct (JS.truthy _) eqn:Htruthy.
    + split.
      * intros [[=]|[[= ->]|(blocks' & [= <-] & Hempty)]]; [done|].
        rewrite Hempty in Htruthy. done.
      * by intros blocks' [= <-] _.
    + apply truthy_false_iff in Htruthy. split; [done|].
      by intros blocks' [= <-] Hne.
  - split; [done|]. by intros blocks' [=].
Qed.

(** C10: when the argument text of a tool call parses and the tool call
    returns the result [r], the step of the tool loop appends a
    tool-result message tagged with the call's identifier whose content is
    the JSON serialisation of [r] when [r] has no content list, an empty
    one, or text fields that join to the empty string, and is the
    newline-joined text fields of all content blocks otherwise; in both
    handlers. *)
Theorem tool_result_content (w : World) (mcpUrl : string) (tm : list MessageParam)
    (tc : ToolCall) (args : Json) (s : St) :
  JSON_parse w (argumentText tc) = inr args →
  (∀ r s', Relay.callMcpTool w mcpUrl (tc_name tc) args s = (Ok r, s') →
     ∃ c, Relay.toolStep w mcpUrl tm (Some tc) s = (Ok (tm ++ [ToolMsg (tc_id tc) c]), s') ∧
          contentFollows w r c) ∧
  (∀ r s', SrcRoute.callMcpTool w mcpUrl (tc_name tc) args s = (Ok r, s') →
     ∃ c, SrcRoute.toolStep w mcpUrl tm (Some tc) s = (Ok (tm ++ [ToolMsg (tc_id tc) c]), s') ∧
          contentFollows w r c).
Proof.
  intros Hparse. split; intros r s' Hcall; exists (resultText w r).
  - split; [|apply resultText_follows].
    unfold Relay.toolStep, try_catch, mbind, M_bind.
    fold (argumentText tc). rewrite Hparse. cbn [liftE mret M_ret]. by rewrite Hcall.
  - split; [|apply resultText_follows].
    unfold SrcRoute.toolStep, try_catch, mbind, M_bind.
    fold (argumentText tc). rewrite Hparse. cbn [liftE mret M_ret]. by rewrite Hcall.
Qed.

(** ** The statements at work *)

(** A stream whose only fragment carries index 1 leaves a hole in slot 0:
    the tool loop reads a property of [undefined], the outer [catch]
    reports it, and no follow-up request is issued. *)
Lemma sparse_array_aborts :
  accumulate sparse_chunks = [None; Some (mkToolCall "call_2" "track_parcel" EmptyString)] ∧
  ∃ st,
    Relay.POST world_sparse = EventStream st ∧
    length (requests st) = 1 ∧
    events st = [ EvStatus "Connecting to MCP server...";
                  EvStatus "MCP: Connected (2 tools available)";
                  EvStatus "Connecting to OpenAI...";
                  EvStatus "Using tools: , track_parcel";
                  EvError "Cannot read properties of undefined (reading 'id')" (Some "unknown") ].
Proof. split; [done|]. eexists. split; [by vm_compute|]. by vm_compute. Qed.

Lemma example_configured (key : string) body tools tool completions :
  JS.truthy key = true →
  configured (example_world (Some key) body tools tool completions) example_url.
Proof. intros Hkey. by repeat split. Qed.

Lemma one_tool_result_per_call_witness :
  (∃ st p1 p2 results,
     Relay.POST world_two_calls = EventStream st ∧
     requests st = [p1; p2] ∧
     p_messages p2 =
       withAssistant (p_messages p1) (fullContentOf EmptyString two_calls_chunks)
         (Some <$> two_calls) ++ results ∧
     Forall2 (λ tc m, ∃ c, m = ToolMsg (tc_id tc) c) two_calls results ∧
     toolResultIds (p_messages p2) = ["call_1"; "call_2"]) ∧
  (∃ st p1 p2 results,
     SrcRoute.POST world_two_calls = inr (EventStream st) ∧
     requests st = [p1; p2] ∧
     p_messages p2 =
       withAssistant (p_messages p1) (fullContentOf EmptyString two_calls_chunks)
         (Some <$> two_calls) ++ results ∧
     Forall2 (λ tc m, ∃ c, m = ToolMsg (tc_id tc) c) two_calls results ∧
     toolResultIds (p_messages p2) = ["call_1"; "call_2"]).
Proof.
  destruct (one_tool_result_per_call world_two_calls example_url order_question
              two_calls_chunks two_calls) as [HRelay HSrc].
  - by apply example_configured.
  - reflexivity.
  - discriminate.
  - reflexivity.
  - split; [apply HRelay|apply HSrc]; reflexivity.
Defined.

Lemma malformed_body_rejected_witness :
  Relay.POST world_bad_body = JsonResponse 400 "Invalid JSON in request body".
Proof.
  destruct (malformed_body_rejected world_bad_body malformed_body) as (Hconfigured & _ & _).
  - reflexivity.
  - apply (Hconfigured example_url). by apply example_configured.
Defined.

(** C4, as stated, fails: without the API key a request whose body is not
    JSON gets the status-500 configuration error, not a 400-class
    response. *)
Lemma malformed_body_without_key :
  request_json world_bad_body_no_key = inl malformed_body ∧
  Relay.POST world_bad_body_no_key =
    JsonResponse 500 "OPENAI_API_KEY environment variable is not set" ∧
  ¬ ∃ status payload,
      Relay.POST world_bad_body_no_key = JsonResponse status payload ∧
      400 ≤ status ∧ status < 500.
Proof.
  split; [done|]. split; [done|].
  intros (status & payload & [= <- <-] & _ & Hlt). lia.
Qed.

Lemma discovery_failure_warns_and_omits_tools_witness :
  ∃ st p1 rest,
    Relay.POST world_discovery_down = EventStream st ∧
    requests st = p1 :: rest ∧
    EvWarning "MCP: Failed to connect to MCP server (fetch failed). Proceeding without tools."
      ∈ events st ∧
    p_tools p1 = None.
Proof.
  destruct (discovery_failure_warns_and_omits_tools world_discovery_down example_url
              order_question) as (st & p1 & rest & HPOST & Hreq & _ & Hfail & _).
  - by apply example_configured.
  - reflexivity.
  - exists st, p1, rest. split; [exact HPOST|]. split; [exact Hreq|].
    apply (Hfail (error "fetch failed")). reflexivity.
Defined.

Lemma no_fragments_no_tool_round_witness :
  (∃ st,
     Relay.POST world_discovery_down = EventStream st ∧
     requests st = [Relay.firstParams order_question []] ∧
     invocations st = [] ∧ closed st = true ∧
     events st = preamble world_discovery_down example_url ++ contentEvents plain_answer ++
                 [EvDone]) ∧
  (∃ st,
     SrcRoute.POST world_discovery_down = inr (EventStream st) ∧
     requests st = [SrcRoute.firstParams order_question []] ∧
     invocations st = [] ∧ closed st = true ∧
     events st = contentEvents plain_answer ++ [EvDone]).
Proof.
  destruct (no_fragments_no_tool_round world_discovery_down example_url order_question
              plain_answer None) as (_ & _ & HRelay & HSrc).
  - by apply example_configured.
  - reflexivity.
  - reflexivity.
  - split; [apply HRelay|apply HSrc]; reflexivity.
Defined.

(** C7, as stated, fails: the first stream of this request yields no
    tool-call fragment, and the event after its last content event is an
    [error] event; no [done] event is sent. *)
Lemma broken_stream_ends_with_error :
  [text_chunk "Please share "] ≫= fragmentsOf = [] ∧
  ∃ st,
    Relay.POST world_broken_stream = EventStream st ∧
    events st = [ EvStatus "Connecting to MCP server...";
                  EvWarning "MCP: No tools available from server.";
                  EvStatus "Connecting to OpenAI...";
                  EvContent "Please share ";
                  EvError "socket hang up" (Some "unknown") ] ∧
    EvDone ∉ events st.
Proof.
  split; [done|]. eexists. split; [by vm_compute|]. split; [done|].
  cbn. rewrite !not_elem_of_cons. repeat split; try discriminate. apply not_elem_of_nil.
Qed.

Lemma system_message_leads_witness :
  (∃ st p1 rest prompt,
     Relay.POST world_discovery_down = EventStream st ∧ requests st = p1 :: rest ∧
     p_messages p1 = ChatMsg system prompt :: [ChatMsg user "Where is my order?"] ∧
     systemCount (p_messages p1) = 1) ∧
  (∃ st p1 rest prompt,
     SrcRoute.POST world_discovery_down = inr (EventStream st) ∧ requests st = p1 :: rest ∧
     p_messages p1 = ChatMsg system prompt :: [ChatMsg user "Where is my order?"] ∧
     systemCount (p_messages p1) = 1).
Proof.
  apply (system_message_leads world_discovery_down example_url order_question).
  - by apply example_configured.
  - reflexivity.
Defined.

(** C8, as stated, fails: a caller's history that carries a system message
    of its own leaves two system messages in the first completion
    request. *)
Lemma two_system_messages :
  ∃ st p1 rest,
    Relay.POST world_system_history = EventStream st ∧
    requests st = p1 :: rest ∧
    systemCount (p_messages p1) = 2.
Proof. eexists _, _, _. split; [by vm_compute|]. split; [done|]. by vm_compute. Qed.

Lemma tool_result_content_witness :
  let tc := mkToolCall "call_1" "lookup_order" EmptyString in
  let shown := "Order 17" +:+ String "010"%char (String "010"%char "has shipped.") in
  (∃ s', Relay.toolStep world_three_blocks example_url [] (Some tc) initial =
           (Ok [ToolMsg "call_1" shown], s')) ∧
  (∃ s', SrcRoute.toolStep world_three_blocks example_url [] (Some tc) initial =
           (Ok [ToolMsg "call_1" shown], s')).
Proof.
  intros tc shown.
  destruct (tool_result_content world_three_blocks example_url [] tc (JObject []) initial)
    as [HRelay HSrc].
  - reflexivity.
  - split.
    + destruct (HRelay three_blocks _ eq_refl) as (c & Hstep & _ & Hc).
      rewrite (Hc _ eq_refl) in Hstep by (by vm_compute).
      eexists. exact Hstep.
    + destruct (HSrc three_blocks _ eq_refl) as (c & Hstep & _ & Hc).
      rewrite (Hc _ eq_refl) in Hstep by (by vm_compute).
      eexists. exact Hstep.
Defined.

(** ** The tool loop, with its invocations *)

Section tool_loop_run.
Variable w : World.
Variable step : list MessageParam → option ToolCall → M (list MessageParam).
Hypothesis step_accounts : accounts w step.

(** The loop reaches the records before the first hole, appends one
    tool-result message for each, invokes those whose arguments parse, and
    throws at the hole if there is one. *)
Lemma foldM_step_run (slots : list (option ToolCall)) (tm : list MessageParam) (s : St) :
  ∃ cs,
    length cs = length (leading slots) ∧
    foldM step tm slots s =
    (if decide (length (leading slots) = length slots)
     then Ok (tm ++ zip_with ToolMsg (tc_id <$> leading slots) cs)
     else Throw (undefined_read "id"),
     mkSt (events s) (closed s) (requests s)
          (invocations s ++ (leading slots ≫= parsedCall w))).
Proof.
  destruct step_accounts as [Hfilled Hhole].
  revert tm s. induction slots as [|[tc|] slots IH]; intros tm s.
  - exists []. split; [done|]. cbn. by rewrite !app_nil_r, St_eta.
  - destruct (Hfilled tm tc s) as (c & Hstep).
    destruct (IH (tm ++ [ToolMsg (tc_id tc) c])
                 (mkSt (events s) (closed s) (requests s) (invocations s ++ parsedCall w tc)))
      as (cs & Hlen & Hrest).
    exists (c :: cs). split; [cbn; lia|].
    cbn [foldM leading]. unfold mbind, M_bind at 1. rewrite Hstep, Hrest.
    cbn [events closed requests invocations length fmap list_fmap zip_with mbind list_bind].
    rewrite <- !app_assoc. cbn [app].
    destruct (decide (length (leading slots) = length slots)) as [Heq|Hne].
    + by rewrite decide_True by lia.
    + by rewrite decide_False by lia.
  - exists []. split; [done|].
    cbn [foldM leading]. unfold mbind, M_bind at 1. rewrite Hhole.
    destruct s; cbn. rewrite !app_nil_r. by destruct (decide _).
Qed.
End tool_loop_run.

Lemma Relay_toolStep_accounts (w : World) (mcpUrl : string) :
  accounts w (Relay.toolStep w mcpUrl).
Proof.
  split; [|done].
  intros tm tc s. unfold Relay.toolStep, try_catch, liftE, mbind, M_bind, parsedCall.
  fold (argumentText tc).
  destruct (JSON_parse w (argumentText tc)) as [e|args]; cbn.
  - eexists. destruct s; cbn. by rewrite app_nil_r.
  - unfold Relay.callMcpTool. destruct (callTool w _ _ _ _); cbn; by eexists.
Qed.

Lemma SrcRoute_toolStep_accounts (w : World) (mcpUrl : string) :
  accounts w (SrcRoute.toolStep w mcpUrl).
Proof.
  split; [|done].
  intros tm tc s. unfold SrcRoute.toolStep, try_catch, liftE, mbind, M_bind, parsedCall.
  fold (argumentText tc).
  destruct (JSON_parse w (argumentText tc)) as [e|args]; cbn.
  - eexists. destruct s; cbn. by rewrite app_nil_r.
  - unfold SrcRoute.callMcpTool. destruct (callTool w _ _ _ _); cbn; by eexists.
Qed.

(** ** Whole runs *)

(** Every run of [Relay.start] ends in the state [RelayOutcome] gives, for
    some contents of the tool-result messages, one per record reached. *)
Lemma Relay_run (w : World) (mcpUrl : string) (req : ChatRequest) :
  ∃ cs,
    (∀ chunks,
       create w 0 (Relay.firstParams req (Relay.getMcpTools w mcpUrl).1) = inr (Stream chunks None) →
       length cs = length (leading (accumulate chunks))) ∧
    (Relay.start w mcpUrl req initial).2 = RelayOutcome w mcpUrl req cs.
Proof.
  unfold Relay.start, try_catch, RelayOutcome. rewrite Relay_orchestrate_run.
  destruct (create w 0 _) as [e|[chunks [e|]]] eqn:Hfirst; lazy beta iota zeta.
  - exists []. split; [by intros|]. done.
  - exists []. split; [by intros|].
    rewrite Relay_outerCatch_emit. st_simpl. by rewrite <- ?app_assoc.
  - destruct (0 <? length (accumulate chunks))%nat eqn:Hlt.
    + unfold mbind at 1. unfold M_bind at 1. rewrite Relay_toolRound_run.
      match goal with |- context [foldM _ ?tm ?slots ?s] =>
        destruct (foldM_step_run w _ (Relay_toolStep_accounts w mcpUrl) slots tm s)
          as (cs & Hlen & ->)
      end.
      exists cs. split; [by intros ? [= <-]|].
      destruct (decide (length (leading (accumulate chunks)) = length (accumulate chunks)))
        as [Hdense|Hsparse].
      * rewrite Relay_followUp_run. st_simpl. cbn [length]. unfold toolMessagesOf, usingTools.
        match goal with |- context [create w 1 ?p] =>
          destruct (create w 1 p) as [e|[cs' [e|]]]
        end; run_rest; unfold followUpEvents; rewrite <- ?app_assoc; reflexivity.
      * lazy beta iota. rewrite Relay_outerCatch_emit. st_simpl. unfold usingTools.
        rewrite <- ?app_assoc. reflexivity.
    + exists []. split.
      { intros ? [= <-]. by destruct (accumulate chunks). }
      run_rest. rewrite <- ?app_assoc. reflexivity.
Qed.

Lemma SrcRoute_run (w : World) (mcpUrl : string) (req : ChatRequest) :
  ∃ cs,
    (∀ chunks,
       create w 0 (SrcRoute.firstParams req (SrcRoute.getMcpTools w mcpUrl)) =
         inr (Stream chunks None) →
       length cs = length (leading (accumulate chunks))) ∧
    (SrcRoute.start w mcpUrl req (SrcRoute.getMcpTools w mcpUrl) initial).2 =
    SrcRouteOutcome w mcpUrl req cs.
Proof.
  unfold SrcRoute.start, try_catch, SrcRouteOutcome. rewrite SrcRoute_orchestrate_run.
  destruct (create w 0 _) as [e|[chunks [e|]]] eqn:Hfirst; lazy beta iota zeta.
  - exists []. split; [by intros|]. done.
  - exists []. split; [by intros|]. done.
  - destruct (0 <? length (accumulate chunks))%nat eqn:Hlt.
    + unfold mbind at 1. unfold M_bind at 1. rewrite SrcRoute_toolRound_run.
      match goal with |- context [foldM _ ?tm ?slots ?s] =>
        destruct (foldM_step_run w _ (SrcRoute_toolStep_accounts w mcpUrl) slots tm s)
          as (cs & Hlen & ->)
      end.
      exists cs. split; [by intros ? [= <-]|].
      destruct (decide (length (leading (accumulate chunks)) = length (accumulate chunks)))
        as [Hdense|Hsparse].
      * rewrite SrcRoute_followUp_run. st_simpl. cbn [length]. unfold toolMessagesOf.
        match goal with |- context [create w 1 ?p] =>
          destruct (create w 1 p) as [e|[cs' [e|]]]
        end; run_rest; unfold followUpEventsSrc; rewrite <- ?app_assoc; reflexivity.
      * lazy beta iota. run_rest. rewrite <- ?app_assoc. reflexivity.
    + exists []. split.
      { intros ? [= <-]. by destruct (accumulate chunks). }
      run_rest. rewrite <- ?app_assoc. reflexivity.
Qed.

(** ** Configuration *)

(** X1: a request handled without the API key, or without the MCP
    endpoint, is answered by a status-500 JSON response that names the
    missing value (the key first), whatever the body and the services
    are; no stream is opened. *)
Theorem missing_configuration_is_fatal (w : World) :
  JS.truthy_opt (OPENAI_API_KEY w) = false ∨ JS.truthy_opt (MCP_SERVER_URL w) = false →
  Relay.POST w = JsonResponse 500 (configurationError w) ∧
  SrcRoute.POST w = inr (JsonResponse 500 (configurationErrorSrc w)).
Proof.
  unfold Relay.POST, SrcRoute.POST, unset, configurationError, configurationErrorSrc.
  destruct (JS.truthy_opt (OPENAI_API_KEY w)); cbn [negb]; [|done].
  intros [[=]|Hurl].
  destruct (MCP_SERVER_URL w) as [url|]; [|done].
  cbn in Hurl. by rewrite Hurl.
Qed.

Lemma missing_configuration_is_fatal_witness :
  Relay.POST world_no_endpoint =
    JsonResponse 500 "MCP_SERVER_URL environment variable is not set" ∧
  SrcRoute.POST world_no_endpoint = inr (JsonResponse 500 "MCP server URL not configured").
Proof. apply (missing_configuration_is_fatal world_no_endpoint). by right. Defined.

(** ** The opening of the stream *)

Lemma announcement_is_warning (w : World) (mcpUrl : string) :
  is_warning (announcement (Relay.getMcpTools w mcpUrl).1 (Relay.getMcpTools w mcpUrl).2) = true ↔
  (Relay.getMcpTools w mcpUrl).1 = [].
Proof.
  unfold Relay.getMcpTools, announcement.
  destruct (listTools w mcpUrl) as [e|[[|t ts]|]]; cbn; split; done.
Qed.

(** X2: every stream of the handler with MCP error reporting opens with
    the status "Connecting to MCP server...", one announcement of what
    tool discovery gave, and the status "Connecting to OpenAI..."; the
    announcement is a warning exactly when no tool is available, and
    otherwise the status "MCP: Connected (n tools available)" with the
    number of tools discovered. *)
Theorem stream_opening (w : World) (mcpUrl : string) (req : ChatRequest) :
  configured w mcpUrl → request_json w = inr req →
  ∃ st a rest,
    Relay.POST w = EventStream st ∧
    events st = EvStatus "Connecting to MCP server..." :: a ::
                EvStatus "Connecting to OpenAI..." :: rest ∧
    (is_warning a = true ↔ (Relay.getMcpTools w mcpUrl).1 = []) ∧
    (∀ tools, listTools w mcpUrl = inr (Some tools) → tools ≠ [] →
       a = EvStatus ("MCP: Connected (" +:+ pretty (length tools) +:+ " tools available)")).
Proof.
  intros Hconf Hbody.
  rewrite (Relay_POST_streams w mcpUrl req Hconf Hbody).
  destruct (Relay_start_shape w mcpUrl req) as (evs & rest & inv & ->).
  pose proof (announcement_is_warning w mcpUrl) as Hwarn.
  unfold preamble. destruct (Relay.getMcpTools w mcpUrl) as [mcpTools mcpError] eqn:Hget.
  eexists _, _, _. split; [done|]. split; [done|]. split; [exact Hwarn|].
  intros tools Hlist Hne. unfold Relay.getMcpTools in Hget. rewrite Hlist in Hget.
  injection Hget as <- <-. by destruct tools.
Qed.

Lemma stream_opening_witness :
  ∃ st rest,
    Relay.POST world_two_calls = EventStream st ∧
    events st = EvStatus "Connecting to MCP server..." ::
                EvStatus "MCP: Connected (2 tools available)" ::
                EvStatus "Connecting to OpenAI..." :: rest.
Proof.
  destruct (stream_opening world_two_calls example_url order_question)
    as (st & a & rest & HPOST & Hevents & _ & Hcount).
  - by apply example_configured.
  - reflexivity.
  - exists st, rest. split; [exact HPOST|].
    rewrite Hevents, (Hcount order_tools eq_refl); [reflexivity|discriminate].
Defined.

(** ** The tools offered to the model *)

Lemma or_default_empty (o : option string) :
  JS.or_default o EmptyString = default EmptyString o.
Proof. by destruct o as [[|c s]|]. Qed.

Lemma convert_offers (mcpTools : list McpTool) :
  Forall2 offers mcpTools (convertMcpToolsToOpenAI mcpTools).
Proof.
  unfold convertMcpToolsToOpenAI.
  induction mcpTools as [|tool mcpTools IH]; cbn; constructor; [|exact IH].
  split; [done|]. split; [apply or_default_empty|].
  cbn. by destruct (inputSchema tool).
Qed.

(** X3: when tool discovery returns at least one tool, the first
    completion request of either handler offers exactly the discovered
    tools, in catalogue order, each under its own name, with its
    description (the empty string when it has none) and its input schema
    (the empty object schema when it has none). *)
Theorem discovered_tools_are_offered (w : World) (mcpUrl : string) (req : ChatRequest)
    (tools : list McpTool) :
  configured w mcpUrl → request_json w = inr req →
  listTools w mcpUrl = inr (Some tools) → tools ≠ [] →
  (∃ st p1 rest offered,
     Relay.POST w = EventStream st ∧ requests st = p1 :: rest ∧
     p_tools p1 = Some offered ∧ Forall2 offers tools offered) ∧
  (∃ st p1 rest offered,
     SrcRoute.POST w = inr (EventStream st) ∧ requests st = p1 :: rest ∧
     p_tools p1 = Some offered ∧ Forall2 offers tools offered).
Proof.
  intros Hconf Hbody Hlist Hne. split.
  - rewrite (Relay_POST_streams w mcpUrl req Hconf Hbody).
    destruct (Relay_start_shape w mcpUrl req) as (evs & rest & inv & ->).
    eexists _, _, rest, (convertMcpToolsToOpenAI tools).
    split; [done|]. split; [done|]. split; [|apply convert_offers].
    unfold Relay.firstParams, Relay.getMcpTools. rewrite Hlist. cbn.
    by destruct tools.
  - rewrite (SrcRoute_POST_streams w mcpUrl req Hconf Hbody).
    destruct (SrcRoute_start_shape w mcpUrl req (SrcRoute.getMcpTools w mcpUrl))
      as (evs & rest & inv & ->).
    eexists _, _, rest, (convertMcpToolsToOpenAI tools).
    split; [done|]. split; [done|]. split; [|apply convert_offers].
    unfold SrcRoute.firstParams, SrcRoute.getMcpTools. rewrite Hlist. cbn.
    by destruct tools.
Qed.

Lemma discovered_tools_are_offered_witness :
  (∃ st p1 rest offered,
     Relay.POST world_two_calls = EventStream st ∧ requests st = p1 :: rest ∧
     p_tools p1 = Some offered ∧ Forall2 offers order_tools offered) ∧
  (∃ st p1 rest offered,
     SrcRoute.POST world_two_calls = inr (EventStream st) ∧ requests st = p1 :: rest ∧
     p_tools p1 = Some offered ∧ Forall2 offers order_tools offered).
Proof.
  apply (discovered_tools_are_offered world_two_calls example_url order_question order_tools).
  - by apply example_configured.
  - reflexivity.
  - reflexivity.
  - discriminate.
Defined.

(** ** A failing first completion request *)

(** X4: when the first completion request fails, the turn ends there:
    the handler with MCP error reporting sends, after its opening, one
    [error] event with the classified message and closes the stream; the
    handler of src/app sends one [error] event with the error converted to
    a string and closes the stream. Neither sends [done], issues a second
    request or invokes a tool. *)
Theorem first_completion_failure_ends_turn (w : World) (mcpUrl : string) (req : ChatRequest) :
  configured w mcpUrl → request_json w = inr req →
  (∀ e, create w 0 (Relay.firstParams req (Relay.getMcpTools w mcpUrl).1) = inl e →
     ∃ st p1,
       Relay.POST w = EventStream st ∧
       events st = preamble w mcpUrl ++ [EvError (Relay.classify e) None] ∧
       closed st = true ∧ requests st = [p1] ∧ invocations st = []) ∧
  (∀ e, create w 0 (SrcRoute.firstParams req (SrcRoute.getMcpTools w mcpUrl)) = inl e →
     ∃ st p1,
       SrcRoute.POST w = inr (EventStream st) ∧
       events st = [EvError (errorToString e) None] ∧
       closed st = true ∧ requests st = [p1] ∧ invocations st = []).
Proof.
  intros Hconf Hbody. split; intros e Hfirst.
  - rewrite (Relay_POST_streams w mcpUrl req Hconf Hbody).
    destruct (Relay_run w mcpUrl req) as (cs & _ & ->).
    unfold RelayOutcome. rewrite Hfirst. by eexists _, _.
  - rewrite (SrcRoute_POST_streams w mcpUrl req Hconf Hbody).
    destruct (SrcRoute_run w mcpUrl req) as (cs & _ & ->).
    unfold SrcRouteOutcome. rewrite Hfirst. by eexists _, _.
Qed.

Lemma first_completion_failure_ends_turn_witness :
  (∃ st p1,
     Relay.POST world_bad_key = EventStream st ∧
     events st = preamble world_bad_key example_url ++
                 [EvError "OpenAI: Invalid API key. Please check OPENAI_API_KEY." None] ∧
     closed st = true ∧ requests st = [p1] ∧ invocations st = []) ∧
  (∃ st p1,
     SrcRoute.POST world_bad_key = inr (EventStream st) ∧
     events st = [EvError "AuthenticationError: Incorrect API key provided" None] ∧
     closed st = true ∧ requests st = [p1] ∧ invocations st = []).
Proof.
  destruct (first_completion_failure_ends_turn world_bad_key example_url order_question)
    as [HRelay HSrc].
  - by apply example_configured.
  - reflexivity.
  - split.
    + apply (HRelay (mkExc "AuthenticationError" "Incorrect API key provided" (Some 401) None)).
      reflexivity.
    + apply (HSrc (mkExc "AuthenticationError" "Incorrect API key provided" (Some 401) None)).
      reflexivity.
Defined.

(** X5: the message of the [error] event for a failed first completion
    request always starts with "OpenAI: "; the text "OpenAI API error" the
    variable is initialised with is never sent. *)
Theorem classified_message_names_OpenAI (e : Exc) :
  (∃ rest, Relay.classify e = "OpenAI: " +:+ rest) ∧
  Relay.classify e ≠ "OpenAI API error".
Proof.
  assert (Hprefix : ∃ rest, Relay.classify e = "OpenAI: " +:+ rest).
  { unfold Relay.classify.
    repeat match goal with |- context [if ?b then _ else _] => destruct b end;
      by eexists. }
  split; [exact Hprefix|]. destruct Hprefix as (rest & ->). discriminate.
Qed.

(** ** The outer catch *)

(** X6: the outer [catch] sends one [error] event and closes the stream;
    the event's error type is network, parse or unknown, network when the
    message mentions fetch, network or ENOTFOUND even if it also mentions
    JSON; its content is never empty and ends with the error's message, or
    with "Unknown error" when the message is empty. *)
Theorem outer_catch_reports (e : Exc) (s : St) :
  ∃ c t lead,
    Relay.outerCatch e s = (Ok tt, shut (emit [EvError c (Some t)] s)) ∧
    t ∈ ["network"; "parse"; "unknown"] ∧
    c = lead +:+ reportedMessage e ∧
    JS.truthy c = true ∧
    (JS.includes (reportedMessage e) "fetch" || JS.includes (reportedMessage e) "network" ||
     JS.includes (reportedMessage e) "ENOTFOUND" = true → t = "network").
Proof.
  rewrite Relay_outerCatch_emit. unfold outerEvent. fold (reportedMessage e).
  destruct (_ || _ || _) eqn:Hnet.
  - eexists _, _, _. split; [done|]. split; [set_solver|]. by repeat split.
  - destruct (JS.includes (reportedMessage e) "JSON").
    + eexists _, _, _. split; [done|]. split; [set_solver|]. by repeat split.
    + eexists _, _, EmptyString. split; [done|]. split; [set_solver|].
      split; [done|]. split; [|done].
      unfold reportedMessage. by destruct (JS.truthy (message e)) eqn:Hm.
Qed.

(** ** How every stream ends *)

Lemma preamble_not_terminal (w : World) (mcpUrl : string) :
  Forall (λ ev, is_terminal ev = false) (preamble w mcpUrl).
Proof.
  unfold preamble, announcement.
  destruct (Relay.getMcpTools w mcpUrl) as [mcpTools [mcpError|]].
  - repeat constructor.
  - destruct (length mcpTools =? 0)%nat; repeat constructor.
Qed.

Lemma contentEvents_not_terminal (chunks : list Chunk) :
  Forall (λ ev, is_terminal ev = false) (contentEvents chunks).
Proof.
  eapply Forall_impl; [apply contentEvents_are_content|]. by intros [].
Qed.

Lemma followUpEvents_ending (outcome : Exc + CompletionStream) :
  ∃ quiet tail,
    followUpEvents outcome = quiet ++ tail ∧
    Forall (λ ev, is_terminal ev = false) quiet ∧ Ending tail.
Proof.
  destruct outcome as [e|[cs [e|]]]; cbn.
  - exists [], [followUpError e; EvDone]. repeat split; [constructor|apply ends_error_done].
  - exists (contentEvents cs), [followUpError e; EvDone].
    repeat split; [apply contentEvents_not_terminal|apply ends_error_done].
  - exists (contentEvents cs), [EvDone].
    repeat split; [apply contentEvents_not_terminal|apply ends_done].
Qed.

Lemma followUpEventsSrc_ending (outcome : Exc + CompletionStream) :
  ∃ quiet last,
    followUpEventsSrc outcome = quiet ++ [last] ∧
    Forall (λ ev, is_terminal ev = false) quiet ∧ Ending [last].
Proof.
  destruct outcome as [e|[cs [e|]]]; cbn.
  - exists [], (EvError (errorToString e) None). repeat split; [constructor|apply ends_error].
  - exists (contentEvents cs), (EvError (errorToString e) None).
    repeat split; [apply contentEvents_not_terminal|apply ends_error].
  - exists (contentEvents cs), EvDone.
    repeat split; [apply contentEvents_not_terminal|apply ends_done].
Qed.

Ltac quiet_part :=
  repeat (apply Forall_app; split);
  try apply preamble_not_terminal; try apply contentEvents_not_terminal;
  try assumption; repeat constructor.

(** X7: every stream either handler opens is closed, and its events are
    a run of status, warning and content events followed by its ending:
    [done], or [error], or, in the handler with MCP error reporting only,
    [error] and then [done]. No event follows [done], and [done] is sent at
    most once. *)
Theorem stream_ending (w : World) (mcpUrl : string) (req : ChatRequest) :
  configured w mcpUrl → request_json w = inr req →
  (∃ st quiet tail,
     Relay.POST w = EventStream st ∧ closed st = true ∧
     events st = quiet ++ tail ∧
     Forall (λ ev, is_terminal ev = false) quiet ∧ Ending tail) ∧
  (∃ st quiet last,
     SrcRoute.POST w = inr (EventStream st) ∧ closed st = true ∧
     events st = quiet ++ [last] ∧
     Forall (λ ev, is_terminal ev = false) quiet ∧ Ending [last]).
Proof.
  intros Hconf Hbody. split.
  - rewrite (Relay_POST_streams w mcpUrl req Hconf Hbody).
    destruct (Relay_run w mcpUrl req) as (cs & _ & ->). unfold RelayOutcome.
    destruct (create w 0 _) as [e|[chunks [e|]]].
    + eexists _, (preamble w mcpUrl), [_]. split; [done|]. split; [done|].
      split; [done|]. split; [quiet_part|apply ends_error].
    + unfold outerEvent.
      eexists _, (preamble w mcpUrl ++ contentEvents chunks), [_].
      split; [done|]. split; [done|]. split; [by rewrite <- app_assoc|].
      split; [quiet_part|].
      destruct (_ || _ || _); [|destruct (JS.includes _ "JSON")]; apply ends_error.
    + destruct (0 <? length (accumulate chunks))%nat; [destruct (decide _)|].
      * match goal with |- context [followUpEvents ?o] =>
          destruct (followUpEvents_ending o) as (quiet & tail & -> & Hquiet & Hend)
        end.
        eexists _, (preamble w mcpUrl ++ contentEvents chunks ++
                    [usingTools (accumulate chunks)] ++ quiet), tail.
        split; [done|]. split; [done|]. split; [by rewrite <- !app_assoc|].
        split; [quiet_part|done].
      * eexists _, (preamble w mcpUrl ++ contentEvents chunks ++
                    [usingTools (accumulate chunks)]), [_].
        split; [done|]. split; [done|]. split; [by rewrite <- !app_assoc|].
        split; [quiet_part|apply ends_error].
      * eexists _, (preamble w mcpUrl ++ contentEvents chunks), [_].
        split; [done|]. split; [done|]. split; [by rewrite <- !app_assoc|].
        split; [quiet_part|apply ends_done].
  - rewrite (SrcRoute_POST_streams w mcpUrl req Hconf Hbody).
    destruct (SrcRoute_run w mcpUrl req) as (cs & _ & ->). unfold SrcRouteOutcome.
    destruct (create w 0 _) as [e|[chunks [e|]]].
    + eexists _, [], _. split; [done|]. split; [done|].
      split; [done|]. split; [constructor|apply ends_error].
    + eexists _, (contentEvents chunks), _. split; [done|]. split; [done|].
      split; [done|]. split; [quiet_part|apply ends_error].
    + destruct (0 <? length (accumulate chunks))%nat; [destruct (decide _)|].
      * match goal with |- context [followUpEventsSrc ?o] =>
          destruct (followUpEventsSrc_ending o) as (quiet & last & -> & Hquiet & Hend)
        end.
        eexists _, (contentEvents chunks ++ [EvStatus "Using tools..."] ++ quiet), last.
        split; [done|]. split; [done|]. split; [by rewrite <- !app_assoc|].
        split; [quiet_part|done].
      * eexists _, (contentEvents chunks ++ [EvStatus "Using tools..."]), _.
        split; [done|]. split; [done|]. split; [by rewrite <- !app_assoc|].
        split; [quiet_part|apply ends_error].
      * eexists _, (contentEvents chunks), _.
        split; [done|]. split; [done|]. split; [done|].
        split; [quiet_part|apply ends_done].
Qed.

Lemma stream_ending_witness :
  (∃ st quiet tail,
     Relay.POST world_followup_down = EventStream st ∧ closed st = true ∧
     events st = quiet ++ tail ∧
     Forall (λ ev, is_terminal ev = false) quiet ∧ Ending tail) ∧
  (∃ st quiet last,
     SrcRoute.POST world_followup_down = inr (EventStream st) ∧ closed st = true ∧
     events st = quiet ++ [last] ∧
     Forall (λ ev, is_terminal ev = false) quiet ∧ Ending [last]).
Proof.
  apply (stream_ending world_followup_down example_url order_question).
  - by apply example_configured.
  - reflexivity.
Defined.

(** ** The completion requests of a turn *)

(** X8: a turn issues one completion request or two, never more; the
    second, when there is one, names the same model as the first, carries
    no tool schema, and its message list starts with the message list of
    the first. *)
Theorem at_most_one_tool_round (w : World) (mcpUrl : string) (req : ChatRequest) :
  configured w mcpUrl → request_json w = inr req →
  (∃ st p1,
     Relay.POST w = EventStream st ∧
     (requests st = [p1] ∨
      ∃ p2, requests st = [p1; p2] ∧ p_model p2 = p_model p1 ∧ p_tools p2 = None ∧
            p_messages p1 `prefix_of` p_messages p2)) ∧
  (∃ st p1,
     SrcRoute.POST w = inr (EventStream st) ∧
     (requests st = [p1] ∨
      ∃ p2, requests st = [p1; p2] ∧ p_model p2 = p_model p1 ∧ p_tools p2 = None ∧
            p_messages p1 `prefix_of` p_messages p2)).
Proof.
  intros Hconf Hbody. split.
  - rewrite (Relay_POST_streams w mcpUrl req Hconf Hbody).
    destruct (Relay_run w mcpUrl req) as (cs & _ & ->). unfold RelayOutcome.
    destruct (create w 0 _) as [e|[chunks [e|]]]; try (eexists _, _; split; [done|by left]).
    destruct (0 <? length (accumulate chunks))%nat; [destruct (decide _)|];
      try (eexists _, _; split; [done|by left]).
    eexists _, _. split; [done|]. right. eexists. split; [done|].
    split; [done|]. split; [done|].
    unfold toolMessagesOf, withAssistant. cbn [p_messages followUpParams].
    rewrite <- !app_assoc. by apply prefix_app_r.
  - rewrite (SrcRoute_POST_streams w mcpUrl req Hconf Hbody).
    destruct (SrcRoute_run w mcpUrl req) as (cs & _ & ->). unfold SrcRouteOutcome.
    destruct (create w 0 _) as [e|[chunks [e|]]]; try (eexists _, _; split; [done|by left]).
    destruct (0 <? length (accumulate chunks))%nat; [destruct (decide _)|];
      try (eexists _, _; split; [done|by left]).
    eexists _, _. split; [done|]. right. eexists. split; [done|].
    split; [done|]. split; [done|].
    unfold toolMessagesOf, withAssistant. cbn [p_messages followUpParams].
    rewrite <- !app_assoc. by apply prefix_app_r.
Qed.

Lemma at_most_one_tool_round_witness :
  (∃ st p1,
     Relay.POST world_two_calls = EventStream st ∧
     (requests st = [p1] ∨
      ∃ p2, requests st = [p1; p2] ∧ p_model p2 = p_model p1 ∧ p_tools p2 = None ∧
            p_messages p1 `prefix_of` p_messages p2)) ∧
  (∃ st p1,
     SrcRoute.POST world_two_calls = inr (EventStream st) ∧
     (requests st = [p1] ∨
      ∃ p2, requests st = [p1; p2] ∧ p_model p2 = p_model p1 ∧ p_tools p2 = None ∧
            p_messages p1 `prefix_of` p_messages p2)).
Proof.
  apply (at_most_one_tool_round world_two_calls example_url order_question).
  - by apply example_configured.
  - reflexivity.
Defined.

(** ** Holes in the array of tool calls *)

Lemma leading_dense (slots : list (option ToolCall)) :
  length (leading slots) = length slots ↔ None ∉ slots.
Proof.
  induction slots as [|[tc|] slots IH]; cbn.
  - split; [intros _; apply not_elem_of_nil|done].
  - rewrite not_elem_of_cons. split.
    + intros [= Hlen]. split; [done|by apply IH].
    + intros [_ Hnot]. f_equal. by apply IH.
  - split; [done|]. intros Hnot. exfalso. apply Hnot. by left.
Qed.

Lemma elem_of_length_pos {A} (x : A) (l : list A) : x ∈ l → (0 <? length l)%nat = true.
Proof. destruct l; [by intros ?%elem_of_nil|done]. Qed.

(** X9: when the first stream ends without an error but leaves a hole
    in the array of tool calls (an index below the highest one was never
    named), the tool loop reads a property of [undefined] at the hole: the
    turn ends with an [error] event for that [TypeError], no follow-up
    request is issued and no [done] event is sent; the stream is closed. *)
Theorem hole_aborts_turn (w : World) (mcpUrl : string) (req : ChatRequest)
    (chunks : list Chunk) :
  configured w mcpUrl → request_json w = inr req →
  None ∈ accumulate chunks →
  (create w 0 (Relay.firstParams req (Relay.getMcpTools w mcpUrl).1) = inr (Stream chunks None) →
   ∃ st p1,
     Relay.POST w = EventStream st ∧ closed st = true ∧ requests st = [p1] ∧
     events st = preamble w mcpUrl ++ contentEvents chunks ++
                 [ usingTools (accumulate chunks);
                   EvError "Cannot read properties of undefined (reading 'id')" (Some "unknown") ]) ∧
  (create w 0 (SrcRoute.firstParams req (SrcRoute.getMcpTools w mcpUrl)) = inr (Stream chunks None) →
   ∃ st p1,
     SrcRoute.POST w = inr (EventStream st) ∧ closed st = true ∧ requests st = [p1] ∧
     events st = contentEvents chunks ++
                 [ EvStatus "Using tools...";
                   EvError "TypeError: Cannot read properties of undefined (reading 'id')" None ]).
Proof.
  intros Hconf Hbody Hhole.
  pose proof (elem_of_length_pos _ _ Hhole) as Hpos.
  assert (Hsparse : length (leading (accumulate chunks)) ≠ length (accumulate chunks))
    by (intros Hdense%leading_dense; done).
  split; intros Hfirst.
  - rewrite (Relay_POST_streams w mcpUrl req Hconf Hbody).
    destruct (Relay_run w mcpUrl req) as (cs & _ & ->). unfold RelayOutcome.
    rewrite Hfirst, Hpos, decide_False by done. by eexists _, _.
  - rewrite (SrcRoute_POST_streams w mcpUrl req Hconf Hbody).
    destruct (SrcRoute_run w mcpUrl req) as (cs & _ & ->). unfold SrcRouteOutcome.
    rewrite Hfirst, Hpos, decide_False by done. by eexists _, _.
Qed.

Lemma hole_aborts_turn_witness :
  ∃ st p1,
    Relay.POST world_sparse = EventStream st ∧ closed st = true ∧ requests st = [p1] ∧
    events st = preamble world_sparse example_url ++ contentEvents sparse_chunks ++
                [ usingTools (accumulate sparse_chunks);
                  EvError "Cannot read properties of undefined (reading 'id')" (Some "unknown") ].
Proof.
  destruct (hole_aborts_turn world_sparse example_url order_question sparse_chunks)
    as [HRelay _].
  - by apply example_configured.
  - reflexivity.
  - vm_compute. by left.
  - apply HRelay. reflexivity.
Defined.

(** ** The tool invocations of a turn *)

(** X10: tools are invoked only after the first stream has ended without
    an error; the invocations of the turn are then, in order, one for each
    accumulated call before the first hole whose argument text parses,
    with the tool's name and the parsed arguments; a call whose argument
    text does not parse is not invoked. *)
Theorem invocations_follow_calls (w : World) (mcpUrl : string) (req : ChatRequest) :
  configured w mcpUrl → request_json w = inr req →
  (∃ st,
     Relay.POST w = EventStream st ∧
     invocations st =
       invocationsOf w (create w 0 (Relay.firstParams req (Relay.getMcpTools w mcpUrl).1))) ∧
  (∃ st,
     SrcRoute.POST w = inr (EventStream st) ∧
     invocations st =
       invocationsOf w (create w 0 (SrcRoute.firstParams req (SrcRoute.getMcpTools w mcpUrl)))).
Proof.
  intros Hconf Hbody. split.
  - rewrite (Relay_POST_streams w mcpUrl req Hconf Hbody).
    destruct (Relay_run w mcpUrl req) as (cs & _ & ->). unfold RelayOutcome, invocationsOf.
    destruct (create w 0 _) as [e|[chunks [e|]]]; try by eexists.
    destruct (0 <? length (accumulate chunks))%nat eqn:Hlt; [destruct (decide _)|];
      try by eexists.
    destruct (accumulate chunks); [by eexists|done].
  - rewrite (SrcRoute_POST_streams w mcpUrl req Hconf Hbody).
    destruct (SrcRoute_run w mcpUrl req) as (cs & _ & ->). unfold SrcRouteOutcome, invocationsOf.
    destruct (create w 0 _) as [e|[chunks [e|]]]; try by eexists.
    destruct (0 <? length (accumulate chunks))%nat eqn:Hlt; [destruct (decide _)|];
      try by eexists.
    destruct (accumulate chunks); [by eexists|done].
Qed.

Lemma invocations_follow_calls_witness :
  (∃ st,
     Relay.POST world_broken_arguments = EventStream st ∧
     invocations st = [("track_parcel", JObject [])]) ∧
  (∃ st,
     SrcRoute.POST world_broken_arguments = inr (EventStream st) ∧
     invocations st = [("track_parcel", JObject [])]).
Proof.
  apply (invocations_follow_calls world_broken_arguments example_url order_question).
  - by apply example_configured.
  - reflexivity.
Defined.

(** ** The assistant message of the follow-up request *)

Lemma fullContentOf_streamed (acc : string) (chunks : list Chunk) :
  fullContentOf acc chunks =
  foldl (λ acc ev, match ev with EvContent c => acc +:+ c | _ => acc end) acc (contentEvents chunks).
Proof.
  unfold fullContentOf, contentEvents. revert acc.
  induction chunks as [|chunk chunks IH]; intros acc; [done|].
  cbn [foldl mbind list_bind]. rewrite foldl_app, IH. unfold contentOf.
  destruct (delta chunk ≫= delta_content) as [c|]; [|done]. by destruct (JS.truthy c).
Qed.

(** X11: the assistant message that precedes the tool results in the
    follow-up request carries the text the first answer streamed to the
    browser, that is the contents of its content events in order, or no
    content at all when nothing was streamed; it lists the accumulated
    tool calls and comes right after the messages of the first request. *)
Theorem assistant_message_repeats_streamed_text (w : World) (mcpUrl : string) (req : ChatRequest)
    (chunks : list Chunk) (l : list ToolCall) :
  configured w mcpUrl → request_json w = inr req →
  l ≠ [] → accumulate chunks = Some <$> l →
  (create w 0 (Relay.firstParams req (Relay.getMcpTools w mcpUrl).1) = inr (Stream chunks None) →
   ∃ st p1 p2 results,
     Relay.POST w = EventStream st ∧ requests st = [p1; p2] ∧
     p_messages p2 =
       p_messages p1 ++
       AssistantToolCalls (orNull (streamedText (contentEvents chunks))) (Some <$> l) :: results) ∧
  (create w 0 (SrcRoute.firstParams req (SrcRoute.getMcpTools w mcpUrl)) = inr (Stream chunks None) →
   ∃ st p1 p2 results,
     SrcRoute.POST w = inr (EventStream st) ∧ requests st = [p1; p2] ∧
     p_messages p2 =
       p_messages p1 ++
       AssistantToolCalls (orNull (streamedText (contentEvents chunks))) (Some <$> l) :: results).
Proof.
  intros Hconf Hbody Hne Hacc. split; intros Hfirst.
  - destruct (Relay_tool_results w mcpUrl req chunks l Hconf Hbody Hne Hacc Hfirst)
      as (st & cs & HPOST & _ & Hreq).
    eexists st, _, _, _. split; [exact HPOST|]. split; [exact Hreq|].
    cbn [p_messages followUpParams]. unfold withAssistant, streamedText, orNull.
    by rewrite <- fullContentOf_streamed, <- app_assoc.
  - destruct (SrcRoute_tool_results w mcpUrl req chunks l Hconf Hbody Hne Hacc Hfirst)
      as (st & cs & HPOST & _ & Hreq).
    eexists st, _, _, _. split; [exact HPOST|]. split; [exact Hreq|].
    cbn [p_messages followUpParams]. unfold withAssistant, streamedText, orNull.
    by rewrite <- fullContentOf_streamed, <- app_assoc.
Qed.

Lemma assistant_message_repeats_streamed_text_witness :
  (∃ st p1 p2 results,
     Relay.POST world_two_calls = EventStream st ∧ requests st = [p1; p2] ∧
     p_messages p2 =
       p_messages p1 ++ AssistantToolCalls (Some "Let me check.") (Some <$> two_calls) :: results) ∧
  (∃ st p1 p2 results,
     SrcRoute.POST world_two_calls = inr (EventStream st) ∧ requests st = [p1; p2] ∧
     p_messages p2 =
       p_messages p1 ++ AssistantToolCalls (Some "Let me check.") (Some <$> two_calls) :: results).
Proof.
  destruct (assistant_message_repeats_streamed_text world_two_calls example_url order_question
              two_calls_chunks two_calls) as [HRelay HSrc].
  - by apply example_configured.
  - reflexivity.
  - discriminate.
  - reflexivity.
  - split; [apply HRelay|apply HSrc]; reflexivity.
Defined.

(** ** Tool discovery in the handler of src/app *)

Lemma contentEvents_not_warning (chunks : list Chunk) :
  Forall (λ ev, is_warning ev = false) (contentEvents chunks).
Proof.
  eapply Forall_impl; [apply contentEvents_are_content|]. by intros [].
Qed.

(** X12: the handler of src/app/api/chat/route.ts never sends a warning
    event, and a failure of tool discovery leaves no trace on its
    stream: the first completion request is issued without tools, as it
    is for an empty catalogue. *)
Theorem src_discovery_failure_is_silent (w : World) (mcpUrl : string) (req : ChatRequest) :
  configured w mcpUrl → request_json w = inr req →
  ∃ st p1 rest,
    SrcRoute.POST w = inr (EventStream st) ∧
    requests st = p1 :: rest ∧
    Forall (λ ev, is_warning ev = false) (events st) ∧
    (∀ e, listTools w mcpUrl = inl e → p_tools p1 = None).
Proof.
  intros Hconf Hbody.
  rewrite (SrcRoute_POST_streams w mcpUrl req Hconf Hbody).
  destruct (SrcRoute_run w mcpUrl req) as (cs & _ & ->).
  assert (Htools : ∀ e, listTools w mcpUrl = inl e →
            p_tools (SrcRoute.firstParams req (SrcRoute.getMcpTools w mcpUrl)) = None).
  { intros e He. unfold SrcRoute.firstParams, SrcRoute.getMcpTools. by rewrite He. }
  unfold SrcRouteOutcome.
  destruct (create w 0 _) as [e|[chunks [e|]]].
  - eexists _, _, _. split; [done|]. split; [done|]. split; [repeat constructor|done].
  - eexists _, _, _. split; [done|]. split; [done|]. split; [|done].
    apply Forall_app. split; [apply contentEvents_not_warning|repeat constructor].
  - destruct (0 <? length (accumulate chunks))%nat; [destruct (decide _) as [Hdense|Hsparse]|].
    + eexists _, _, _. split; [done|]. split; [done|]. split; [|done].
      cbn [events]. repeat (apply Forall_app; split);
        try apply contentEvents_not_warning; [repeat constructor|].
      destruct (create w 1 _) as [e|[cs' [e|]]]; cbn;
        repeat (apply Forall_app; split); try apply contentEvents_not_warning;
        repeat constructor.
    + eexists _, _, _. split; [done|]. split; [done|]. split; [|done].
      cbn [events]. apply Forall_app. split; [apply contentEvents_not_warning|].
      repeat constructor.
    + eexists _, _, _. split; [done|]. split; [done|]. split; [|done].
      apply Forall_app. split; [apply contentEvents_not_warning|repeat constructor].
Qed.

Lemma src_discovery_failure_is_silent_witness :
  ∃ st p1 rest,
    SrcRoute.POST world_discovery_down = inr (EventStream st) ∧
    requests st = p1 :: rest ∧
    Forall (λ ev, is_warning ev = false) (events st) ∧
    p_tools p1 = None.
Proof.
  destruct (src_discovery_failure_is_silent world_discovery_down example_url order_question)
    as (st & p1 & rest & HPOST & Hreq & Hquiet & Htools).
  - by apply example_configured.
  - reflexivity.
  - exists st, p1, rest. split; [exact HPOST|]. split; [exact Hreq|]. split; [exact Hquiet|].
    apply (Htools (error "fetch failed")). reflexivity.
Defined.

(** ** The size and the filled slots of the accumulated array *)

Lemma length_array_set {A} (arr : list (option A)) (i : nat) (v : A) :
  length (JS.array_set arr i v) = length arr `max` S i.
Proof.
  unfold JS.array_set. destruct (decide (i < length arr)).
  - rewrite length_insert. lia.
  - rewrite !length_app, length_replicate. cbn. lia.
Qed.

Lemma length_array_update {A} (arr : list (option A)) (i : nat) (f : A → A) :
  length (JS.array_update arr i f) = length arr.
Proof. apply length_alter. Qed.

Lemma array_get_in_range {A} (arr : list (option A)) (i : nat) :
  is_Some (JS.array_get arr i) → length arr `max` S i = length arr.
Proof.
  unfold JS.array_get. intros [v Hv].
  destruct (arr !! i) as [slot|] eqn:Hslot; [|done].
  apply lookup_lt_Some in Hslot. lia.
Qed.

Lemma length_mergeToolCall (toolCalls : list (option ToolCall)) (tc : ToolCallDelta) :
  length (mergeToolCall toolCalls tc) =
  match index tc with
  | Some i => length toolCalls `max` S i
  | None => length toolCalls
  end.
Proof.
  unfold mergeToolCall. destruct (index tc) as [i|]; [|done].
  destruct (delta_id tc) as [vid|]; [destruct (JS.truthy vid)|];
    destruct (function tc ≫= fd_name) as [vn|]; try destruct (JS.truthy vn);
    destruct (function tc ≫= fd_arguments) as [va|]; try destruct (JS.truthy va);
    rewrite ?length_array_update;
    (destruct (JS.array_get toolCalls i) as [r|] eqn:Hget;
     [ symmetry; apply array_get_in_range; by rewrite Hget
     | apply length_array_set ]).
Qed.

Lemma max_list_snoc (ns : list nat) (n : nat) :
  max_list (ns ++ [n]) = max_list ns `max` n.
Proof. induction ns as [|m ns IH]; simpl; lia. Qed.

(** X13: the array of tool calls is as long as the highest index a
    fragment named plus one (empty when no fragment carried an index, in
    which case no tool round takes place), and the slot of an index holds
    a record exactly when some fragment named this index: indices skipped
    below the highest one are holes. *)
Theorem accumulated_array_shape (ds : list ToolCallDelta) :
  length (mergeToolCalls [] ds) = max_list (S <$> namedIndices ds) ∧
  (∀ i, is_Some (JS.array_get (mergeToolCalls [] ds) i) ↔ i ∈ namedIndices ds) ∧
  (mergeToolCalls [] ds = [] ↔ namedIndices ds = []).
Proof.
  unfold mergeToolCalls, namedIndices.
  assert (Hlen : length (foldl mergeToolCall [] ds) = max_list (S <$> omap index ds)).
  { induction ds as [|d ds IH] using rev_ind; [done|].
    rewrite foldl_app, omap_app. cbn [foldl].
    rewrite length_mergeToolCall, IH. simpl (omap index [d]).
    destruct (index d) as [i|].
    - rewrite fmap_app. simpl (S <$> [i]). by rewrite max_list_snoc.
    - by rewrite app_nil_r. }
  split; [exact Hlen|]. split.
  - intros i. clear Hlen. induction ds as [|d ds IH] using rev_ind.
    + cbn. split; [by intros [? ?]|by intros ?%elem_of_nil].
    + rewrite foldl_app, omap_app, elem_of_app. cbn [foldl].
      rewrite array_get_mergeToolCall. simpl (omap index [d]).
      destruct (index d) as [j|].
      * destruct (decide (Some j = Some i)) as [[= ->]|Hne].
        -- split; [intros _; right; by left|by eexists].
        -- rewrite IH. split; [by left|]. intros [?|Hin]; [done|].
           apply list_elem_of_singleton in Hin. congruence.
      * rewrite decide_False by done. rewrite IH. split; [by left|].
        by intros [?|?%elem_of_nil].
  - split.
    + intros Hempty. rewrite Hempty in Hlen. cbn in Hlen.
      destruct (omap index ds) as [|i is']; [done|]. cbn in Hlen. lia.
    + intros Hnone. rewrite Hnone in Hlen. by apply nil_length_inv.
Qed.

(** ** Argument text that is not JSON *)

(** X14: when the argument text of an accumulated call does not parse,
    the tool is not invoked and nothing is thrown onward: the handler
    appends a tool-result message tagged with the call's identifier whose
    content reports the failure, "[MCP] Tool name failed - detail" in
    the handler with MCP error reporting and "Error: " followed by the
    error in the handler of src/app, and the loop goes on. *)
Theorem unparsable_arguments_reported (w : World) (mcpUrl : string) (tm : list MessageParam)
    (tc : ToolCall) (s : St) (e : Exc) :
  JSON_parse w (argumentText tc) = inl e → JS.truthy (message e) = true →
  Relay.toolStep w mcpUrl tm (Some tc) s =
    (Ok (tm ++ [ToolMsg (tc_id tc) ("[MCP] Tool " +:+ tc_name tc +:+ " failed - " +:+ message e)]), s) ∧
  SrcRoute.toolStep w mcpUrl tm (Some tc) s =
    (Ok (tm ++ [ToolMsg (tc_id tc) ("Error: " +:+ errorToString e)]), s).
Proof.
  intros Hparse Hmsg. split.
  - unfold Relay.toolStep, try_catch, mbind, M_bind. fold (argumentText tc).
    rewrite Hparse. cbn [liftE throw mret M_ret]. unfold Relay.formatError. rewrite Hmsg.
    do 4 f_equal. change (JS.toUpperCase "mcp") with "MCP".
    change ("[" +:+ "MCP" +:+ "] " +:+ ?x) with ("[MCP] " +:+ x).
    by rewrite !append_associative.
  - unfold SrcRoute.toolStep, try_catch, mbind, M_bind. fold (argumentText tc).
    by rewrite Hparse.
Qed.

Lemma unparsable_arguments_reported_witness :
  let tc := mkToolCall "call_1" "lookup_order" "{" in
  Relay.toolStep world_broken_arguments example_url [] (Some tc) initial =
    (Ok [ToolMsg "call_1" "[MCP] Tool lookup_order failed - Unexpected end of JSON input"],
     initial) ∧
  SrcRoute.toolStep world_broken_arguments example_url [] (Some tc) initial =
    (Ok [ToolMsg "call_1" "Error: SyntaxError: Unexpected end of JSON input"], initial).
Proof.
  intros tc.
  apply (unparsable_arguments_reported world_broken_arguments example_url [] tc initial
           (mkExc "SyntaxError" "Unexpected end of JSON input" None None)); reflexivity.
Defined.

(** ** Splitting the text of the stream *)

Lemma append_cons (c : ascii) (s t : string) : String c s +:+ t = String c (s +:+ t).
Proof. done. Qed.

Lemma string_two_step (P : string → Prop) :
  P EmptyString →
  (∀ c, P (String c EmptyString)) →
  (∀ c d r, P r → P (String d r) → P (String c (String d r))) →
  ∀ s, P s.
Proof.
  intros Hnil Hone Hstep s.
  assert (Hboth : P s ∧ ∀ c, P (String c s)); [|by destruct Hboth].
  induction s as [|d r [IHr IHdr]]; [by split|].
  split; [apply IHdr|]. intros c. by apply Hstep.
Qed.

Lemma cons_head_nonempty (c : ascii) (pieces : list string) : Page.cons_head c pieces ≠ [].
Proof. by destruct pieces. Qed.

Lemma split_nonempty (s : string) : Page.split s ≠ [].
Proof.
  destruct s as [|c [|d r]]; cbn; [done|done|].
  destruct (_ && _); [done|apply cons_head_nonempty].
Qed.

Lemma split_sep (c d : ascii) (r : string) :
  Page.is_nl c && Page.is_nl d = true →
  Page.split (String c (String d r)) = EmptyString :: Page.split r.
Proof. intros Hsep. cbn [Page.split]. by rewrite Hsep. Qed.

Lemma split_no_sep (c d : ascii) (r : string) :
  Page.is_nl c && Page.is_nl d = false →
  Page.split (String c (String d r)) = Page.cons_head c (Page.split (String d r)).
Proof. intros Hsep. cbn [Page.split]. by rewrite Hsep. Qed.

Lemma removelast_cons_head (c : ascii) (pieces : list string) :
  removelast (Page.cons_head c pieces) =
  match pieces with
  | [] | [_] => []
  | p :: ps => String c p :: removelast ps
  end.
Proof. by destruct pieces as [|p [|q ps]]. Qed.

Lemma last_cons_head (c : ascii) (pieces : list string) :
  List.last (Page.cons_head c pieces) EmptyString =
  match pieces with
  | [] => String c EmptyString
  | [p] => String c p
  | _ :: ps => List.last ps EmptyString
  end.
Proof. by destruct pieces as [|p [|q ps]]. Qed.

(** Joining the pieces with the separator gives the text back. *)
Lemma join_split (s : string) : JS.join (nl +:+ nl) (Page.split s) = s.
Proof.
  induction s as [| |c d r IHr IHdr] using string_two_step; [done|done|].
  destruct (Page.is_nl c && Page.is_nl d) eqn:Hsep.
  - rewrite split_sep by done. apply andb_prop in Hsep as [Hc Hd].
    apply Ascii.eqb_eq in Hc, Hd. subst c d.
    pose proof (split_nonempty r) as Hne.
    destruct (Page.split r) as [|p ps]; [done|].
    change (JS.join (nl +:+ nl) (EmptyString :: p :: ps))
      with (EmptyString +:+ (nl +:+ nl) +:+ JS.join (nl +:+ nl) (p :: ps)).
    by rewrite IHr.
  - rewrite split_no_sep by done.
    pose proof (split_nonempty (String d r)) as Hne.
    destruct (Page.split (String d r)) as [|p [|q ps]]; [done| |].
    + cbn in *. by rewrite IHdr.
    + change (JS.join (nl +:+ nl) (Page.cons_head c (p :: q :: ps)))
        with (String c p +:+ (nl +:+ nl) +:+ JS.join (nl +:+ nl) (q :: ps)).
      change (JS.join (nl +:+ nl) (p :: q :: ps))
        with (p +:+ (nl +:+ nl) +:+ JS.join (nl +:+ nl) (q :: ps)) in IHdr.
      by rewrite append_cons, IHdr.
Qed.

Lemma split_single (s p : string) : Page.split s = [p] → p = s.
Proof. intros Hsplit. by rewrite <- (join_split s), Hsplit. Qed.

(** Splitting a text in two reads: what is left of the first read, put
    before the second, splits as the rest of the whole text does. *)
Lemma split_append (a b : string) :
  Page.split (a +:+ b) =
  removelast (Page.split a) ++ Page.split (List.last (Page.split a) EmptyString +:+ b).
Proof.
  induction a as [| |c d r IHr IHdr] using string_two_step; [done|done|].
  rewrite !append_cons.
  destruct (Page.is_nl c && Page.is_nl d) eqn:Hsep.
  - rewrite !split_sep by done. rewrite IHr.
    pose proof (split_nonempty r) as Hne.
    by destruct (Page.split r) as [|p ps].
  - rewrite !split_no_sep by done. rewrite <- append_cons, IHdr.
    rewrite removelast_cons_head, last_cons_head.
    pose proof (split_nonempty (String d r)) as Hne.
    destruct (Page.split (String d r)) as [|p [|q ps]] eqn:Hsplit; [done| |done].
    apply split_single in Hsplit. subst p. cbn [removelast app List.last].
    by rewrite !append_cons, split_no_sep.
Qed.

Lemma split_last_is_whole (s : string) :
  Page.split (List.last (Page.split s) EmptyString) = [List.last (Page.split s) EmptyString].
Proof.
  pose proof (split_append s EmptyString) as Happ.
  rewrite !append_empty_r in Happ.
  rewrite (@app_removelast_last _ (Page.split s) EmptyString (split_nonempty s)) in Happ at 1.
  by apply app_inv_head in Happ.
Qed.

(** ** Reading the stream in the browser *)

Lemma processLines_app (parse : string → Exc + option StreamEvent) (aid : string)
    (a b : list string) (ui : Page.UI) :
  Page.processLines parse aid (a ++ b) ui =
  match Page.processLines parse aid a ui with
  | (ui', None) => Page.processLines parse aid b ui'
  | (ui', Some e) => (ui', Some e)
  end.
Proof.
  revert ui. induction a as [|line a IH]; intros ui; [done|].
  cbn [app Page.processLines]. destruct (Page.processLine parse aid line ui) as [ui' [e|]]; [done|].
  apply IH.
Qed.

Lemma removelast_app_nonempty {A} (a b : list A) :
  b ≠ [] → removelast (a ++ b) = a ++ removelast b.
Proof. intros Hne. by apply removelast_app. Qed.

(** The loop over the reads does what one pass over the lines of the
    whole text does. *)
Lemma readLoop_whole (parse : string → Exc + option StreamEvent) (aid : string)
    (values : list string) (failure : option Exc) (buffer : string) (ui : Page.UI) :
  Page.split buffer = [buffer] →
  Page.readLoop parse aid values failure buffer ui =
  match Page.processLines parse aid
          (removelast (Page.split (buffer +:+ readText values))) ui with
  | (ui', None) => (ui', failure)
  | (ui', Some e) => (ui', Some e)
  end.
Proof.
  revert buffer ui. induction values as [|value values IH]; intros buffer ui Hwhole.
  - cbn. by rewrite append_empty_r, Hwhole.
  - cbn [Page.readLoop readText foldr].
    rewrite <- append_associative.
    rewrite (split_append (buffer +:+ value)).
    rewrite removelast_app_nonempty by apply split_nonempty.
    rewrite processLines_app.
    destruct (Page.processLines parse aid _ ui) as [ui' [e|]]; [done|].
    apply IH, split_last_is_whole.
Qed.

(** X15: what the page makes of a response does not depend on how the
    network cut the text into reads: two sequences of reads that add up
    to the same text leave the page in the same state, with the same error
    if there is one; a frame split between two reads is put together
    again. *)
Theorem reads_may_be_cut_anywhere (parse : string → Exc + option StreamEvent) (aid : string)
    (values values' : list string) (failure : option Exc) (ui : Page.UI) :
  readText values = readText values' →
  Page.readLoop parse aid values failure EmptyString ui =
  Page.readLoop parse aid values' failure EmptyString ui.
Proof.
  intros Hsame. rewrite !readLoop_whole by done. by rewrite Hsame.
Qed.

Lemma reads_may_be_cut_anywhere_witness :
  let parse := parse_table answer_events in
  Page.readLoop parse "2" [wire answer_events] None EmptyString fresh_page =
  Page.readLoop parse "2"
    [ "data: {"; stringify_string "type" +:+ ":" +:+ stringify_string "status" +:+ ",";
      stringify_string "content" +:+ ":" +:+ stringify_string "Connecting to OpenAI..." +:+ "}" +:+ nl;
      nl +:+ wire (tail answer_events) ] None EmptyString fresh_page.
Proof.
  intros parse.
  apply (reads_may_be_cut_anywhere parse "2"). reflexivity.
Defined.

(** ** The frames on the wire and the lines the page finds *)

Lemma has_nl_append (a b : string) : has_nl (a +:+ b) = has_nl a || has_nl b.
Proof.
  induction a as [|c a IH]; [done|].
  rewrite append_cons. cbn [has_nl]. by rewrite IH, orb_assoc.
Qed.

Lemma has_nl_escape_char (c : ascii) : has_nl (escape_char c) = false.
Proof. by destruct c as [[] [] [] [] [] [] [] []]. Qed.

Lemma has_nl_escape (s : string) : has_nl (escape s) = false.
Proof.
  induction s as [|c s IH]; [done|].
  cbn [escape]. by rewrite has_nl_append, has_nl_escape_char, IH.
Qed.

Lemma has_nl_stringify_string (s : string) : has_nl (stringify_string s) = false.
Proof.
  unfold stringify_string. by rewrite !has_nl_append, has_nl_escape.
Qed.

Lemma has_nl_stringify_event (ev : StreamEvent) : has_nl (stringify_event ev) = false.
Proof.
  destruct ev as [c|c|c|c [t|]|]; unfold stringify_event;
    by rewrite !has_nl_append, ?has_nl_stringify_string.
Qed.

Lemma has_nl_frameLine (ev : StreamEvent) : has_nl (frameLine ev) = false.
Proof. unfold frameLine. by rewrite has_nl_append, has_nl_stringify_event. Qed.

Lemma split_first_not_nl (c : ascii) (s : string) :
  Page.is_nl c = false → Page.split (String c s) = Page.cons_head c (Page.split s).
Proof. intros Hc. destruct s; cbn [Page.split]; by rewrite ?Hc. Qed.

(** A line without a line feed, then the separator: the line is the first
    piece. *)
Lemma split_line (line rest : string) :
  has_nl line = false →
  Page.split (line +:+ nl +:+ nl +:+ rest) = line :: Page.split rest.
Proof.
  induction line as [|c line IH]; intros Hline; [done|].
  cbn [has_nl] in Hline. apply orb_false_elim in Hline as [Hc Hline].
  rewrite append_cons, split_first_not_nl by done.
  by rewrite IH.
Qed.

(** X16: the frames the handlers write and the way the page cuts the
    text fit together: whatever the events carry (line feeds and empty
    texts included), cutting the text of a stream at the blank lines gives
    back one line for each event sent, in order, [data: ] followed by its
    serialisation, and leaves an empty remainder for the buffer. *)
Theorem frames_split_back (evs : list StreamEvent) :
  Page.split (wire evs) = (frameLine <$> evs) ++ [EmptyString].
Proof.
  induction evs as [|ev evs IH]; [done|].
  cbn [wire foldr fmap list_fmap app]. fold (wire evs).
  replace (frame ev +:+ wire evs) with (frameLine ev +:+ nl +:+ nl +:+ wire evs)
    by (unfold frame, frameLine; by rewrite !append_associative).
  rewrite split_line by apply has_nl_frameLine.
  by rewrite IH.
Qed.

Lemma split_wire_then (evs : list StreamEvent) (rest : string) :
  Page.split (wire evs +:+ rest) = (frameLine <$> evs) ++ Page.split rest.
Proof.
  induction evs as [|ev evs IH]; [by rewrite append_empty_l|].
  cbn [wire foldr fmap list_fmap app]. fold (wire evs).
  replace ((frame ev +:+ wire evs) +:+ rest)
    with (frameLine ev +:+ nl +:+ nl +:+ wire evs +:+ rest)
    by (unfold frame, frameLine; by rewrite !append_associative).
  rewrite split_line by apply has_nl_frameLine.
  by rewrite IH.
Qed.

Lemma processLine_frameLine (parse : string → Exc + option StreamEvent) (aid : string)
    (ev : StreamEvent) (ui : Page.UI) :
  parse (stringify_event ev) = inr (Some ev) →
  Page.processLine parse aid (frameLine ev) ui = (Page.dispatch aid ev ui, None).
Proof.
  intros Hparse. unfold Page.processLine, Page.startsWith, frameLine.
  rewrite prefix_append.
  change (Page.slice 6 ("data: " +:+ stringify_event ev)) with (stringify_event ev).
  by rewrite Hparse.
Qed.

Lemma processLines_frames (parse : string → Exc + option StreamEvent) (aid : string)
    (evs : list StreamEvent) (ui : Page.UI) :
  readsBack parse evs →
  Page.processLines parse aid (frameLine <$> evs) ui = (replay aid evs ui, None).
Proof.
  intros Hback. revert ui. induction Hback as [|ev evs Hev _ IH]; intros ui; [done|].
  cbn [fmap list_fmap Page.processLines].
  rewrite processLine_frameLine by done. apply IH.
Qed.

(** X17: the page replays the stream: when the reads add up to the
    frames of the events [evs], followed perhaps by the beginning of a frame
    that never ends, and [JSON.parse] reads the serialisations back, the
    read loop dispatches exactly these events, in order; the unfinished
    frame is dropped without an error, and the loop ends with the error of
    the failing read, if there is one. *)
Theorem page_replays_events (parse : string → Exc + option StreamEvent) (aid : string)
    (values : list string) (failure : option Exc) (evs : list StreamEvent)
    (cut : string) (ui : Page.UI) :
  readsBack parse evs →
  Page.split cut = [cut] →
  readText values = wire evs +:+ cut →
  Page.readLoop parse aid values failure EmptyString ui = (replay aid evs ui, failure).
Proof.
  intros Hback Hcut Htext.
  rewrite readLoop_whole by done.
  rewrite append_empty_l, Htext, split_wire_then, Hcut.
  rewrite removelast_last, processLines_frames by done.
  done.
Qed.

Lemma page_replays_events_witness :
  readsBack (parse_table answer_events) answer_events ∧
  Page.readLoop (parse_table answer_events) "2"
    [wire (take 2 answer_events); wire (drop 2 answer_events); "data: {"]
    None EmptyString fresh_page =
  (replay "2" answer_events fresh_page, None).
Proof.
  assert (Hback : readsBack (parse_table answer_events) answer_events)
    by (repeat constructor).
  split; [exact Hback|].
  apply (page_replays_events _ "2" _ None answer_events "data: {"); [exact Hback|reflexivity|].
  vm_compute. reflexivity.
Defined.

(** ** What the dispatched events make of the page *)

Lemma replay_app (aid : string) (a b : list StreamEvent) (ui : Page.UI) :
  replay aid (a ++ b) ui = replay aid b (replay aid a ui).
Proof. apply foldl_app. Qed.

Lemma replay_cons (aid : string) (ev : StreamEvent) (evs : list StreamEvent) (ui : Page.UI) :
  replay aid (ev :: evs) ui = replay aid evs (Page.dispatch aid ev ui).
Proof. done. Qed.

Lemma shown_cons (ev : StreamEvent) (evs : list StreamEvent) (m : Page.Message) :
  shown (ev :: evs) m = shown evs (shown [ev] m).
Proof. done. Qed.

Lemma shown_id (evs : list StreamEvent) (m : Page.Message) :
  Page.id (shown evs m) = Page.id m.
Proof.
  revert m. induction evs as [|ev evs IH]; intros m; [done|].
  rewrite (shown_cons ev evs), IH. by destruct ev.
Qed.

Lemma dispatch_messages (aid : string) (ev : StreamEvent) (ui : Page.UI) :
  Page.messages (Page.dispatch aid ev ui) =
  (λ m, if decide (Page.id m = aid) then shown [ev] m else m) <$> Page.messages ui.
Proof.
  destruct ev; cbn; try done; rewrite <- (list_fmap_id (Page.messages ui)) at 1;
    apply list_fmap_ext; intros i m _; by destruct (decide _).
Qed.

Lemma replay_messages (aid : string) (evs : list StreamEvent) (ui : Page.UI) :
  Page.messages (replay aid evs ui) =
  (λ m, if decide (Page.id m = aid) then shown evs m else m) <$> Page.messages ui.
Proof.
  revert ui. induction evs as [|ev evs IH]; intros ui.
  - cbn. rewrite <- (list_fmap_id (Page.messages ui)) at 1.
    apply list_fmap_ext; intros i m _; by destruct (decide _).
  - rewrite replay_cons, IH, dispatch_messages.
    rewrite <- list_fmap_compose. apply list_fmap_ext; intros i m _.
    cbn [compose]. rewrite (shown_cons ev evs).
    destruct (decide (Page.id m = aid)) as [Hid|Hid].
    + by rewrite decide_True by (by rewrite shown_id).
    + by rewrite decide_False.
Qed.

Lemma replay_frame (aid : string) (evs : list StreamEvent) (ui : Page.UI) :
  Page.input (replay aid evs ui) = Page.input ui ∧
  Page.isLoading (replay aid evs ui) = Page.isLoading ui ∧
  Page.model (replay aid evs ui) = Page.model ui ∧
  Page.tone (replay aid evs ui) = Page.tone ui.
Proof.
  revert ui. induction evs as [|ev evs IH]; intros ui; [done|].
  rewrite replay_cons.
  destruct (IH (Page.dispatch aid ev ui)) as (-> & -> & -> & ->). by destruct ev.
Qed.

Lemma foldl_content_from (evs : list StreamEvent) (acc : string) :
  foldl (λ acc ev, match ev with EvContent c => acc +:+ c | _ => acc end) acc evs =
  acc +:+ streamedText evs.
Proof.
  unfold streamedText. revert acc.
  induction evs as [|ev evs IH] using rev_ind; intros acc; [by rewrite append_empty_r|].
  rewrite !foldl_app. cbn [foldl]. rewrite IH.
  destruct ev; try done. by rewrite append_associative.
Qed.

Lemma shown_app (a b : list StreamEvent) (m : Page.Message) :
  shown (a ++ b) m = shown b (shown a m).
Proof. apply foldl_app. Qed.

Lemma shown_no_error (evs : list StreamEvent) (m : Page.Message) :
  forallb (λ ev, negb (is_error ev)) evs = true →
  shown evs m = Page.mkMessage (Page.id m) (Page.role m) (Page.content m +:+ streamedText evs).
Proof.
  induction evs as [|ev evs IH] using rev_ind; intros Hno.
  - cbn. rewrite append_empty_r. by destruct m.
  - rewrite forallb_app in Hno. apply andb_prop in Hno as [Hevs Hev].
    rewrite shown_app, IH by done.
    unfold streamedText. rewrite foldl_app. fold (streamedText evs).
    destruct ev; try done. cbn. by rewrite append_associative.
Qed.

Lemma shown_after_error (before after : list StreamEvent) (c : string) (t : option string)
    (m : Page.Message) :
  forallb (λ ev, negb (is_error ev)) after = true →
  shown (before ++ EvError c t :: after) m =
  Page.mkMessage (Page.id m) Page.error (c +:+ streamedText after).
Proof.
  intros Hafter. rewrite shown_app, (shown_cons _ after).
  rewrite shown_no_error by done. cbn. by rewrite shown_id.
Qed.

(** The messages of the page once the two new messages are in place and
    [f] has been applied to the message of the assistant's identifier. *)
Lemma update_placeholder (now1 now2 : nat) (text : string) (f : Page.Message → Page.Message)
    (old : list Page.Message) (p : Page.Message) :
  now1 ≠ now2 + 1 →
  Forall (λ m, Page.id m ≠ pretty (now2 + 1)) old →
  Page.id p = pretty (now2 + 1) →
  (λ m, if decide (Page.id m = pretty (now2 + 1)) then f m else m) <$>
    (old ++ [Page.mkMessage (pretty now1) Page.user text; p]) =
  old ++ [Page.mkMessage (pretty now1) Page.user text; f p].
Proof.
  intros Hclock Hold Hp. rewrite fmap_app. f_equal.
  - rewrite <- (list_fmap_id old) at 2. apply list_fmap_ext. intros i m Hm.
    rewrite Forall_lookup in Hold. by rewrite decide_False by by eapply Hold.
  - cbn. rewrite decide_False by (intros Heq; by apply (inj pretty) in Heq).
    by rewrite decide_True.
Qed.

(** A submit whose read loop dispatches [evs] and ends with [thrown]. *)
Lemma submit_of_loop (trim : string → string) (parse : string → Exc + option StreamEvent)
    (now1 now2 : nat) (values : list string) (failure thrown : option Exc)
    (evs : list StreamEvent) (ui : Page.UI) :
  canSubmit trim ui →
  freshIds now1 now2 ui →
  (∀ ui1, Page.readLoop parse (pretty (now2 + 1)) values failure EmptyString ui1 =
          (replay (pretty (now2 + 1)) evs ui1, thrown)) →
  Page.handleSubmit trim parse now1 now2 (λ _, Page.Streaming values failure) ui =
  (afterSubmit trim now1 ui
     match thrown with
     | None => shown evs (placeholder now2)
     | Some e => connectionFailed now2 (message e)
     end,
   Some (requestBody trim ui)).
Proof.
  intros [Hinput Hloading] [Hclock Hold] Hloop.
  unfold Page.handleSubmit. rewrite Hinput, Hloading. cbn [negb orb].
  cbn [Page.id]. rewrite Hloop.
  unfold afterSubmit, requestBody. f_equal; [|by rewrite fmap_app].
  set (ui1 := Page.mkUI _ EmptyString true _ _ _).
  destruct (replay_frame (pretty (now2 + 1)) evs ui1) as (Hi & _ & Hm & Ht).
  pose proof (replay_messages (pretty (now2 + 1)) evs ui1) as Hmsgs.
  cbn [Page.messages ui1 app] in Hmsgs.
  rewrite (update_placeholder now1 now2) in Hmsgs by done.
  destruct thrown as [e|]; unfold Page.updateMessage;
    rewrite Hi, Hm, Ht, Hmsgs; cbn [Page.messages Page.input Page.model Page.tone ui1];
    [|done].
  rewrite (update_placeholder now1 now2) by (done || apply shown_id).
  unfold connectionFailed. by rewrite shown_id.
Qed.

(** A submit whose response streams the frames of [evs], and whose reads
    end with [failure]. *)
Lemma submit_streaming (trim : string → string) (parse : string → Exc + option StreamEvent)
    (now1 now2 : nat) (values : list string) (failure : option Exc)
    (evs : list StreamEvent) (cut : string) (ui : Page.UI) :
  canSubmit trim ui →
  freshIds now1 now2 ui →
  readsBack parse evs →
  Page.split cut = [cut] →
  readText values = wire evs +:+ cut →
  Page.handleSubmit trim parse now1 now2 (λ _, Page.Streaming values failure) ui =
  (afterSubmit trim now1 ui
     match failure with
     | None => shown evs (placeholder now2)
     | Some e => connectionFailed now2 (message e)
     end,
   Some (requestBody trim ui)).
Proof.
  intros Hcan Hfresh Hback Hcut Htext.
  apply submit_of_loop; [done..|]. intros ui1.
  rewrite readLoop_whole by done.
  rewrite append_empty_l, Htext, split_wire_then, Hcut.
  by rewrite removelast_last, processLines_frames.
Qed.

Lemma processLines_replay (parse : string → Exc + option StreamEvent) (aid : string)
    (lines : list string) (ui : Page.UI) :
  ∃ evs, (Page.processLines parse aid lines ui).1 = replay aid evs ui.
Proof.
  revert ui. induction lines as [|line lines IH]; intros ui; [by exists []|].
  cbn [Page.processLines]. unfold Page.processLine.
  destruct (Page.startsWith line "data: "); [|apply IH].
  destruct (parse _) as [e|[ev|]]; [by exists []| |apply IH].
  destruct (IH (Page.dispatch aid ev ui)) as [evs Hevs]. by exists (ev :: evs).
Qed.

Lemma readLoop_replay (parse : string → Exc + option StreamEvent) (aid : string)
    (values : list string) (failure : option Exc) (ui : Page.UI) :
  ∃ evs, (Page.readLoop parse aid values failure EmptyString ui).1 = replay aid evs ui.
Proof.
  rewrite readLoop_whole by done.
  destruct (processLines_replay parse aid
    (removelast (Page.split (EmptyString +:+ readText values))) ui) as [evs Hevs].
  exists evs. by destruct (Page.processLines _ _ _ _) as [ui' [e|]].
Qed.

(** Every submit that runs comes to this: a request with the history and
    the new message of the user, and a page where some function that keeps
    identifiers has been applied to the messages of the assistant's
    identifier. *)
Lemma submit_shape (trim : string → string) (parse : string → Exc + option StreamEvent)
    (now1 now2 : nat) (fetch : Page.Body → Page.Fetched) (ui : Page.UI) :
  canSubmit trim ui →
  ∃ g : Page.Message → Page.Message,
    (∀ m, Page.id (g m) = Page.id m) ∧
    Page.handleSubmit trim parse now1 now2 fetch ui =
    (Page.mkUI
       ((λ m, if decide (Page.id m = pretty (now2 + 1)) then g m else m) <$>
          (Page.messages ui ++
           [Page.mkMessage (pretty now1) Page.user (trim (Page.input ui))] ++
           [placeholder now2]))
       EmptyString false EmptyString (Page.model ui) (Page.tone ui),
     Some (requestBody trim ui)).
Proof.
  intros [Hinput Hloading].
  unfold Page.handleSubmit. rewrite Hinput, Hloading. cbn [negb orb Page.id].
  replace (Page.mkBody _ (Page.model ui) (Page.tone ui)) with (requestBody trim ui)
    by (unfold requestBody; by rewrite fmap_app).
  set (failed := λ e : Exc, λ m : Page.Message,
    Page.mkMessage (Page.id m) Page.error ("Connection failed: " +:+ message e)).
  destruct (fetch (requestBody trim ui)) as [e| | |values failure].
  1-3: eexists (failed _); split; [done|reflexivity].
  set (ui1 := Page.mkUI _ EmptyString true _ _ _).
  destruct (readLoop_replay parse (pretty (now2 + 1)) values failure ui1) as [evs Hevs].
  destruct (replay_frame (pretty (now2 + 1)) evs ui1) as (Hi & _ & Hm & Ht).
  destruct (Page.readLoop _ _ _ _ _ _) as [ui2 [e|]]; cbn [fst] in Hevs; subst ui2.
  - exists (λ m, failed e (shown evs m)). split; [intros m; apply shown_id|].
    unfold Page.updateMessage. rewrite Hi, Hm, Ht, replay_messages.
    cbn [Page.messages Page.input Page.model Page.tone]. f_equal. f_equal.
    rewrite <- list_fmap_compose. apply list_fmap_ext; intros i m _. cbn [compose].
    destruct (decide (Page.id m = _)) as [Hid|Hid].
    + by rewrite decide_True by (by rewrite shown_id).
    + by rewrite decide_False.
  - exists (shown evs). split; [intros m; apply shown_id|].
    rewrite Hi, Hm, Ht, replay_messages. done.
Qed.

(** A submit whose request gives no stream to read. *)
Lemma submit_refused (trim : string → string) (parse : string → Exc + option StreamEvent)
    (now1 now2 : nat) (f : Page.Fetched) (msg : string) (ui : Page.UI) :
  canSubmit trim ui →
  freshIds now1 now2 ui →
  refusal f = Some msg →
  Page.handleSubmit trim parse now1 now2 (λ _, f) ui =
  (afterSubmit trim now1 ui (connectionFailed now2 msg), Some (requestBody trim ui)).
Proof.
  intros [Hinput Hloading] [Hclock Hold] Hf.
  unfold Page.handleSubmit. rewrite Hinput, Hloading. cbn [negb orb Page.id].
  unfold afterSubmit, requestBody, connectionFailed.
  destruct f as [e| | |values failure]; [| | |done]; injection Hf as <-;
    (f_equal; [|by rewrite fmap_app]);
    unfold Page.updateMessage; cbn [Page.messages Page.input Page.model Page.tone];
    f_equal; cbn [app]; by rewrite (update_placeholder now1 now2).
Qed.

(** ** The submit handler of the page *)

(** X18: a turn that streams without an error event shows the streamed
    text: when the request is answered by a stream whose reads add up to
    the frames of [evs] (and perhaps an unfinished frame), none of them an
    error event, the page ends with the history, the user's message and an
    assistant message whose content is the concatenation of the content
    events, in order; status, warning and done events leave no trace. *)
Theorem submit_shows_streamed_text (trim : string → string)
    (parse : string → Exc + option StreamEvent) (now1 now2 : nat) (values : list string)
    (evs : list StreamEvent) (cut : string) (ui : Page.UI) :
  canSubmit trim ui →
  freshIds now1 now2 ui →
  readsBack parse evs →
  Page.split cut = [cut] →
  readText values = wire evs +:+ cut →
  forallb (λ ev, negb (is_error ev)) evs = true →
  Page.handleSubmit trim parse now1 now2 (λ _, Page.Streaming values None) ui =
  (afterSubmit trim now1 ui
     (Page.mkMessage (pretty (now2 + 1)) Page.assistant (streamedText evs)),
   Some (requestBody trim ui)).
Proof.
  intros Hcan Hfresh Hback Hcut Htext Hno.
  rewrite (submit_streaming trim parse now1 now2 values None evs cut) by done.
  rewrite shown_no_error by done. cbn. by rewrite append_empty_l.
Qed.

Lemma submit_shows_streamed_text_witness :
  Page.handleSubmit trim_nothing (parse_table answer_events) 1 1
    (λ _, Page.Streaming [wire answer_events] None) fresh_page =
  (afterSubmit trim_nothing 1 fresh_page
     (Page.mkMessage "2" Page.assistant "Please share your order number."),
   Some (requestBody trim_nothing fresh_page)).
Proof.
  apply (submit_shows_streamed_text trim_nothing (parse_table answer_events) 1 1
           [wire answer_events] answer_events EmptyString fresh_page).
  - split; reflexivity.
  - split; [lia|constructor].
  - repeat constructor.
  - reflexivity.
  - vm_compute. reflexivity.
  - reflexivity.
Defined.

(** X19: an error event takes over the reply: the last error event of a
    stream turns the assistant message into a message of role error whose
    content is the error's text, and drops what was streamed before it;
    content events that follow it are appended to the error's text. *)
Theorem error_event_takes_over_reply (trim : string → string)
    (parse : string → Exc + option StreamEvent) (now1 now2 : nat) (values : list string)
    (before after : list StreamEvent) (c : string) (t : option string) (ui : Page.UI) :
  canSubmit trim ui →
  freshIds now1 now2 ui →
  readsBack parse (before ++ EvError c t :: after) →
  readText values = wire (before ++ EvError c t :: after) →
  forallb (λ ev, negb (is_error ev)) after = true →
  Page.handleSubmit trim parse now1 now2 (λ _, Page.Streaming values None) ui =
  (afterSubmit trim now1 ui
     (Page.mkMessage (pretty (now2 + 1)) Page.error (c +:+ streamedText after)),
   Some (requestBody trim ui)).
Proof.
  intros Hcan Hfresh Hback Htext Hafter.
  rewrite (submit_streaming trim parse now1 now2 values None
             (before ++ EvError c t :: after) EmptyString)
    by (done || by rewrite append_empty_r).
  by rewrite shown_after_error.
Qed.

Lemma error_event_takes_over_reply_witness :
  Page.handleSubmit trim_nothing (parse_table events_with_error) 1 1
    (λ _, Page.Streaming [wire events_with_error] None) fresh_page =
  (afterSubmit trim_nothing 1 fresh_page
     (Page.mkMessage "2" Page.error
        "[OPENAI] Follow-up request failed - upstream unavailable"),
   Some (requestBody trim_nothing fresh_page)).
Proof.
  apply (error_event_takes_over_reply trim_nothing (parse_table events_with_error) 1 1
           [wire events_with_error] (take 3 events_with_error) [EvDone]
           "[OPENAI] Follow-up request failed - upstream unavailable" None fresh_page).
  - split; reflexivity.
  - split; [lia|constructor].
  - repeat constructor.
  - vm_compute. reflexivity.
  - reflexivity.
Defined.

(** X20: a request that gives no stream is shown as a failed connection:
    when [fetch] rejects, when the response is not ok (as are the JSON
    error responses of the handlers), or when it has no body, the page ends
    with the history, the user's message and a message of role error with
    the content [Connection failed: ] followed by the error's message. *)
Theorem refused_request_is_shown (trim : string → string)
    (parse : string → Exc + option StreamEvent) (now1 now2 : nat) (f : Page.Fetched)
    (msg : string) (ui : Page.UI) :
  canSubmit trim ui →
  freshIds now1 now2 ui →
  refusal f = Some msg →
  Page.handleSubmit trim parse now1 now2 (λ _, f) ui =
  (afterSubmit trim now1 ui
     (Page.mkMessage (pretty (now2 + 1)) Page.error ("Connection failed: " +:+ msg)),
   Some (requestBody trim ui)).
Proof. apply submit_refused. Qed.

Lemma refused_request_is_shown_witness :
  Page.handleSubmit trim_nothing (parse_table []) 1 1 (λ _, Page.NotOk) fresh_page =
  (afterSubmit trim_nothing 1 fresh_page
     (Page.mkMessage "2" Page.error "Connection failed: Failed to send message"),
   Some (requestBody trim_nothing fresh_page)).
Proof.
  apply (refused_request_is_shown trim_nothing (parse_table []) 1 1 Page.NotOk
           "Failed to send message" fresh_page).
  - split; reflexivity.
  - split; [lia|constructor].
  - reflexivity.
Defined.

(** X21: a read that fails discards the reply: when the reads of the body
    deliver the frames of [evs] and the next read rejects with [e], the
    assistant message becomes a message of role error with the content
    [Connection failed: ] followed by the message of [e], whatever text the
    frames had streamed into it. *)
Theorem broken_read_discards_text (trim : string → string)
    (parse : string → Exc + option StreamEvent) (now1 now2 : nat) (values : list string)
    (e : Exc) (evs : list StreamEvent) (cut : string) (ui : Page.UI) :
  canSubmit trim ui →
  freshIds now1 now2 ui →
  readsBack parse evs →
  Page.split cut = [cut] →
  readText values = wire evs +:+ cut →
  Page.handleSubmit trim parse now1 now2 (λ _, Page.Streaming values (Some e)) ui =
  (afterSubmit trim now1 ui
     (Page.mkMessage (pretty (now2 + 1)) Page.error ("Connection failed: " +:+ message e)),
   Some (requestBody trim ui)).
Proof.
  intros Hcan Hfresh Hback Hcut Htext.
  by rewrite (submit_streaming trim parse now1 now2 values (Some e) evs cut).
Qed.

Lemma broken_read_discards_text_witness :
  Page.handleSubmit trim_nothing (parse_table answer_events) 1 1
    (λ _, Page.Streaming [wire (take 3 answer_events); "data: {"]
            (Some (newError "network error"))) fresh_page =
  (afterSubmit trim_nothing 1 fresh_page
     (Page.mkMessage "2" Page.error "Connection failed: network error"),
   Some (requestBody trim_nothing fresh_page)).
Proof.
  apply (broken_read_discards_text trim_nothing (parse_table answer_events) 1 1
           [wire (take 3 answer_events); "data: {"] (newError "network error")
           (take 3 answer_events) "data: {" fresh_page).
  - split; reflexivity.
  - split; [lia|constructor].
  - repeat constructor.
  - reflexivity.
  - vm_compute. reflexivity.
Defined.

(** X22: a frame that does not parse ends the turn: when the frames of
    [evs] are followed by a [data: ] line on which [JSON.parse] throws [e],
    the events before it are dispatched, nothing that follows the line is
    looked at, and the assistant message becomes a message of role error
    with the content [Connection failed: ] followed by the message of
    [e]. *)
Theorem unparsable_frame_ends_turn (trim : string → string)
    (parse : string → Exc + option StreamEvent) (now1 now2 : nat) (values : list string)
    (failure : option Exc) (e : Exc) (evs : list StreamEvent) (bad rest : string)
    (ui : Page.UI) :
  canSubmit trim ui →
  freshIds now1 now2 ui →
  readsBack parse evs →
  has_nl bad = false →
  parse bad = inl e →
  readText values = wire evs +:+ ("data: " +:+ bad) +:+ nl +:+ nl +:+ rest →
  Page.handleSubmit trim parse now1 now2 (λ _, Page.Streaming values failure) ui =
  (afterSubmit trim now1 ui
     (Page.mkMessage (pretty (now2 + 1)) Page.error ("Connection failed: " +:+ message e)),
   Some (requestBody trim ui)).
Proof.
  intros Hcan Hfresh Hback Hbad He Htext.
  rewrite (submit_of_loop trim parse now1 now2 values failure (Some e) evs); [done..|].
  intros ui1. rewrite readLoop_whole by done.
  rewrite append_empty_l, Htext, split_wire_then.
  rewrite split_line by (by rewrite has_nl_append, Hbad).
  rewrite removelast_app_nonempty by done.
  rewrite processLines_app, processLines_frames by done.
  pose proof (split_nonempty rest) as Hrest.
  destruct (Page.split rest) as [|piece pieces]; [done|].
  change (removelast (?x :: piece :: pieces)) with (x :: removelast (piece :: pieces)).
  cbn [Page.processLines]. unfold Page.processLine, Page.startsWith.
  rewrite prefix_append.
  change (Page.slice 6 ("data: " +:+ bad)) with bad.
  by rewrite He.
Qed.

Lemma unparsable_frame_ends_turn_witness :
  Page.handleSubmit trim_nothing (parse_table answer_events) 1 1
    (λ _, Page.Streaming
            [wire (take 3 answer_events) +:+ "data: {oops" +:+ nl +:+ nl +:+
             wire (drop 3 answer_events)] None) fresh_page =
  (afterSubmit trim_nothing 1 fresh_page
     (Page.mkMessage "2" Page.error "Connection failed: Unexpected token"),
   Some (requestBody trim_nothing fresh_page)).
Proof.
  apply (unparsable_frame_ends_turn trim_nothing (parse_table answer_events) 1 1
           [wire (take 3 answer_events) +:+ "data: {oops" +:+ nl +:+ nl +:+
            wire (drop 3 answer_events)] None
           (mkExc "SyntaxError" "Unexpected token" None None)
           (take 3 answer_events) "{oops" (wire (drop 3 answer_events)) fresh_page).
  - split; reflexivity.
  - split; [lia|constructor].
  - repeat constructor.
  - reflexivity.
  - reflexivity.
  - vm_compute. reflexivity.
Defined.

(** X23: every submit that runs settles the page: however the request
    ends (refused, broken off, with frames that do not parse or events of
    an unknown type), exactly one request is made, with the history and the
    new message of the user as its messages; the page ends not loading,
    with an empty status line and an empty input, the model and tone it
    had, and exactly two messages more than before, under the identifiers
    made from the two readings of the clock. *)
Theorem submit_always_settles (trim : string → string)
    (parse : string → Exc + option StreamEvent) (now1 now2 : nat)
    (fetch : Page.Body → Page.Fetched) (ui : Page.UI) :
  canSubmit trim ui →
  let r := Page.handleSubmit trim parse now1 now2 fetch ui in
  r.2 = Some (requestBody trim ui) ∧
  Page.isLoading r.1 = false ∧ Page.statusText r.1 = EmptyString ∧
  Page.input r.1 = EmptyString ∧
  Page.model r.1 = Page.model ui ∧ Page.tone r.1 = Page.tone ui ∧
  Page.id <$> Page.messages r.1 =
    (Page.id <$> Page.messages ui) ++ [pretty now1; pretty (now2 + 1)].
Proof.
  intros Hcan r. subst r.
  destruct (submit_shape trim parse now1 now2 fetch ui Hcan) as (g & Hg & ->).
  cbn [fst snd Page.isLoading Page.statusText Page.input Page.model Page.tone Page.messages].
  repeat split.
  rewrite <- list_fmap_compose.
  rewrite (list_fmap_ext _ Page.id (Page.messages ui ++ _ ++ _)).
  - by rewrite !fmap_app.
  - intros i m _. cbn [compose]. by destruct (decide _).
Qed.

Lemma submit_always_settles_witness :
  let r := Page.handleSubmit trim_nothing (parse_table answer_events) 1 1
             (λ _, Page.Streaming ["data: {}" +:+ nl +:+ nl +:+ wire answer_events] None)
             fresh_page in
  r.2 = Some (requestBody trim_nothing fresh_page) ∧
  Page.isLoading r.1 = false ∧ Page.statusText r.1 = EmptyString ∧
  Page.input r.1 = EmptyString ∧
  Page.model r.1 = "gpt-5.2" ∧ Page.tone r.1 = "professional" ∧
  Page.id <$> Page.messages r.1 = ["1"; "2"].
Proof.
  apply (submit_always_settles trim_nothing (parse_table answer_events) 1 1
           (λ _, Page.Streaming ["data: {}" +:+ nl +:+ nl +:+ wire answer_events] None)
           fresh_page).
  split; reflexivity.
Defined.

(** X24: a failed turn is sent again with the next one: after a submit
    whose request gave no stream, the request of the next submit carries
    the messages of the first request, then the failure text the page
    shows, as a message of role error, then the new message of the user. *)
Theorem failed_turn_is_resent (trim : string → string)
    (parse parse' : string → Exc + option StreamEvent) (now1 now2 now3 now4 : nat)
    (f : Page.Fetched) (fetch' : Page.Body → Page.Fetched) (msg text : string)
    (ui : Page.UI) :
  canSubmit trim ui →
  freshIds now1 now2 ui →
  refusal f = Some msg →
  JS.truthy (trim text) = true →
  (Page.handleSubmit trim parse' now3 now4 fetch'
     (typing text (Page.handleSubmit trim parse now1 now2 (λ _, f) ui).1)).2 =
  Some (Page.mkBody
          (Page.body_messages (requestBody trim ui) ++
           [(Page.error, "Connection failed: " +:+ msg); (Page.user, trim text)])
          (Page.model ui) (Page.tone ui)).
Proof.
  intros Hcan Hfresh Hf Htext.
  rewrite (submit_refused trim parse now1 now2 f msg) by done.
  cbn [fst].
  destruct (submit_shape trim parse' now3 now4 fetch'
              (typing text (afterSubmit trim now1 ui (connectionFailed now2 msg))))
    as (g & _ & ->); [by split|].
  cbn [snd]. unfold requestBody. cbn.
  rewrite fmap_app. cbn [fmap list_fmap]. by rewrite <- !app_assoc.
Qed.

Lemma failed_turn_is_resent_witness :
  (Page.handleSubmit trim_nothing (parse_table []) 5 5 (λ _, Page.NotOk)
     (typing "Are you there?"
        (Page.handleSubmit trim_nothing (parse_table []) 1 1 (λ _, Page.NotOk)
           fresh_page).1)).2 =
  Some (Page.mkBody
          [ (Page.user, "Where is my order?");
            (Page.error, "Connection failed: Failed to send message");
            (Page.user, "Are you there?") ]
          "gpt-5.2" "professional").
Proof.
  apply (failed_turn_is_resent trim_nothing (parse_table []) (parse_table []) 1 1 5 5
           Page.NotOk (λ _, Page.NotOk) "Failed to send message" "Are you there?"
           fresh_page).
  - split; reflexivity.
  - split; [lia|constructor].
  - reflexivity.
  - reflexivity.
Defined.
